(** * pylisp: a shallow embedding of [lisp.py] and its specification

    The development follows the pipeline of the program: text is cut into
    tokens ([tokenize]), tokens are read into a tree ([read_from_tokens],
    [atom]), the tree is evaluated against one mutable dictionary ([eval]),
    and values are printed back ([schemestr]).

    Conventions of the embedding.
    - A Python [str] is a [string]; a character stands for the code point of
      the same number, so the texts covered are those over code points
      0..255.
    - A [float] is an IEEE binary64 number, a [spec_float] of the standard
      library; reading and printing decimals is exact integer arithmetic.
    - A raised exception is a value of [exn]; a computation that may raise
      returns a [result].
    - The dictionary [env] is threaded explicitly: [eval] returns the
      dictionary it leaves behind, also when it raises.
    - What the host interpreter supplies beyond that (a few builtins, object
      identity, the print of a procedure) is a parameter, [Host].
    - The interpreter's limits on the depth of calls and on memory are left
      out. *)

From Stdlib Require Import ZArith List String Ascii Bool Lia.
From Stdlib Require Import SpecFloat Decimal DecimalString DecimalZ.
From stdpp Require Import gmap strings.

Local Open Scope Z_scope.

(** * The program *)

(* stdpp freezes [String.append] under [simpl]; the proofs below compute
   with it. *)
#[local] Arguments String.append !_ _ / : simpl nomatch.

(** ** Characters and the [str] methods used by the tokenizer *)

Module Str.

(** [str.isspace] on code points below 256: TAB..CR, FS..US, SPACE, NEL and
    NBSP. These are the separators of [str.split()]. *)
Definition isspace (c : ascii) : bool :=
  let n := N_of_ascii c in
  ((9 <=? n) && (n <=? 13) || (28 <=? n) && (n <=? 32)
   || (n =? 133) || (n =? 160))%N.

Definition isdigit (c : ascii) : bool :=
  let n := N_of_ascii c in ((48 <=? n) && (n <=? 57))%N.

(** [s.replace(old, new)] for a one-character [old]. *)
Fixpoint replace (old : ascii) (new : string) (s : string) : string :=
  match s with
  | EmptyString => EmptyString
  | String c s' =>
      if Ascii.eqb c old then new +:+ replace old new s'
      else String c (replace old new s')
  end.

(** A finished word is emitted unless it is empty. *)
Definition flush (word : string) : list string :=
  match word with
  | EmptyString => []
  | _ => [word]
  end.

(** [s.split()]: the maximal runs of non-space characters, in order.
    [word] is the run read so far. *)
Fixpoint split_from (word : string) (s : string) : list string :=
  match s with
  | EmptyString => flush word
  | String c s' =>
      if isspace c then flush word ++ split_from EmptyString s'
      else split_from (word +:+ String c EmptyString) s'
  end.

Definition split (s : string) : list string := split_from EmptyString s.

(** [sep.join(l)] *)
Fixpoint join (sep : string) (l : list string) : string :=
  match l with
  | [] => EmptyString
  | [x] => x
  | x :: xs => x +:+ sep +:+ join sep xs
  end.

End Str.

(** ** Tokenizer *)

(** [chars.replace('(',' ( ').replace(')', ' ) ').split()] *)
Definition tokenize (chars : string) : list string :=
  Str.split (Str.replace ")" " ) " (Str.replace "(" " ( " chars)).

(** The tokenizer as the specification words it: one pass over the text in
    which each parenthesis is a token of its own and everything else is cut
    at white space. *)
Fixpoint lex_from (word : string) (s : string) : list string :=
  match s with
  | EmptyString => Str.flush word
  | String c s' =>
      if Ascii.eqb c "(" || Ascii.eqb c ")" then
        Str.flush word ++ String c EmptyString :: lex_from EmptyString s'
      else if Str.isspace c then Str.flush word ++ lex_from EmptyString s'
      else lex_from (word +:+ String c EmptyString) s'
  end.

Definition lex (s : string) : list string := lex_from EmptyString s.

(** ** Exceptions and results *)

(** The exceptions the program and the builtins it uses can raise. The two
    [SyntaxError]s of the reader differ by their message. *)
Inductive exn : Type :=
| SyntaxError (msg : string)
| IndexError
| KeyError (key : string)
| TypeError
| ValueError
| ZeroDivisionError
| OverflowError.

Inductive result (A : Type) : Type :=
| Ok (a : A)
| Raise (e : exn).
Arguments Ok {A} a.
Arguments Raise {A} e.

(** ** Numbers: [int()], [float()] and [str()] on numbers *)

Module Num.

(** Python's [float] is IEEE binary64, written here as a [spec_float] with
    53 bits of precision and exponents below 1024. *)
Definition prec : Z := 53.
Definition emax : Z := 1024.

(** The characters [int()] and [float()] strip from both ends of a [str]:
    those of [str.isspace] except FS..US. *)
Definition isspace (c : ascii) : bool :=
  let n := N_of_ascii c in
  ((9 <=? n) && (n <=? 13) || (n =? 32) || (n =? 133) || (n =? 160))%N.

Fixpoint lstrip (s : string) : string :=
  match s with
  | String c s' => if isspace c then lstrip s' else s
  | EmptyString => s
  end.

Fixpoint rstrip (s : string) : string :=
  match s with
  | String c s' =>
      match rstrip s' with
      | EmptyString => if isspace c then EmptyString else String c EmptyString
      | r => String c r
      end
  | EmptyString => s
  end.

Definition strip (s : string) : string := rstrip (lstrip s).

Definition digit (c : ascii) : Z := Z.of_N (N_of_ascii c) - 48.

(** The digits of an [int()] literal after its first one: digits, each
    possibly preceded by one underscore. [acc] is the value read so far. *)
Fixpoint int_digits (acc : Z) (s : string) : option Z :=
  match s with
  | EmptyString => Some acc
  | String c s' =>
      if Str.isdigit c then int_digits (10 * acc + digit c) s'
      else if Ascii.eqb c "_" then
        match s' with
        | String d s'' =>
            if Str.isdigit d then int_digits (10 * acc + digit d) s'' else None
        | EmptyString => None
        end
      else None
  end.

Definition int_unsigned (s : string) : option Z :=
  match s with
  | String c s' => if Str.isdigit c then int_digits (digit c) s' else None
  | EmptyString => None
  end.

(** An optional sign in front of a literal: whether it is a minus, and
    what follows it. *)
Definition split_sign (s : string) : bool * string :=
  match s with
  | String c r =>
      if Ascii.eqb c "-" then (true, r)
      else if Ascii.eqb c "+" then (false, r)
      else (false, s)
  | EmptyString => (false, s)
  end.

(** [int(s)] for a [str] in base 10; [None] stands for [ValueError].
    The cap that recent CPython versions put on the number of digits is a
    run-time setting and is left out. *)
Definition int (s : string) : option Z :=
  let '(neg, r) := split_sign (strip s) in
  option_map (fun z => if neg then - z else z) (int_unsigned r).

(** [float()] first checks the underscores: each one stands between two
    digits; it then reads the text without them. [prev] is the character
    just read. *)
Fixpoint drop_underscores (prev : ascii) (s : string) : option string :=
  match s with
  | EmptyString => if Ascii.eqb prev "_" then None else Some EmptyString
  | String c s' =>
      if Ascii.eqb c "_" then
        if Str.isdigit prev then drop_underscores c s' else None
      else if Ascii.eqb prev "_" && negb (Str.isdigit c) then None
      else option_map (String c) (drop_underscores c s')
  end.

(** A run of digits: its value appended to [acc], how many there were, and
    what follows. *)
Fixpoint digit_run (acc : Z) (n : Z) (s : string) : Z * Z * string :=
  match s with
  | String c s' =>
      if Str.isdigit c then digit_run (10 * acc + digit c) (n + 1) s'
      else (acc, n, s)
  | EmptyString => (acc, n, s)
  end.

(** The exponent part of a decimal literal, or 0 when there is none. *)
Definition exponent_part (s : string) : option Z :=
  match s with
  | EmptyString => Some 0
  | String c s' =>
      if Ascii.eqb c "e" || Ascii.eqb c "E" then
        let '(neg, s'') := split_sign s' in
        match digit_run 0 0 s'' with
        | (e, n, EmptyString) =>
            if 0 <? n then Some (if neg then - e else e) else None
        | _ => None
        end
      else None
  end.

(** A decimal literal without sign: digits, an optional point and more
    digits, an optional exponent; at least one digit before the exponent.
    The result [(m, e)] stands for [m * 10 ^ e]. *)
Definition decimal (s : string) : option (Z * Z) :=
  let '(m1, n1, s1) := digit_run 0 0 s in
  let '(m2, n2, s2) :=
    match s1 with
    | String c t => if Ascii.eqb c "." then digit_run m1 0 t else (m1, 0, s1)
    | EmptyString => (m1, 0, s1)
    end in
  if 0 <? n1 + n2 then
    option_map (fun e => (m2, e - n2)) (exponent_part s2)
  else None.

(** The binary64 number nearest to [m * 10 ^ e] (ties to even), for
    [0 <= m]; too large a number gives an infinity. *)
Definition float_of_decimal (neg : bool) (m e : Z) : spec_float :=
  match m with
  | Zpos p =>
      if 0 <=? e then binary_round prec emax neg (p * Z.to_pos (10 ^ e)) 0
      else
        let '(q, e2, l) := SFdiv_core_binary prec emax m 0 (10 ^ (- e)) 0 in
        binary_round_aux prec emax neg q e2 l
  | _ => S754_zero neg
  end.

Definition lower (c : ascii) : ascii :=
  let n := N_of_ascii c in
  if ((65 <=? n) && (n <=? 90))%N then ascii_of_N (n + 32) else c.

Fixpoint lowercase (s : string) : string :=
  match s with
  | String c s' => String (lower c) (lowercase s')
  | EmptyString => EmptyString
  end.

Definition float_unsigned (neg : bool) (s : string) : option spec_float :=
  let l := lowercase s in
  if String.eqb l "inf" || String.eqb l "infinity" then Some (S754_infinity neg)
  else if String.eqb l "nan" then Some S754_nan
  else option_map (fun '(m, e) => float_of_decimal neg m e) (decimal s).

(** [float(s)] for a [str]; [None] stands for [ValueError]. *)
Definition float (s : string) : option spec_float :=
  match drop_underscores "000" (strip s) with
  | Some t => let '(neg, r) := split_sign t in float_unsigned neg r
  | None => None
  end.

(** [str(z)] for an [int]: its decimal digits, with a minus sign if it is
    negative. *)
Definition str_int (z : Z) : string :=
  DecimalString.NilEmpty.string_of_int (Z.to_int z).

(** How many decimal digits a positive integer has. *)
Definition digits10 (z : Z) : Z :=
  Z.of_nat (Decimal.nb_digits (N.to_uint (Z.to_N z))).

(** [z / d] for [0 < d], rounded to the nearest integer, ties to even. *)
Definition div_nearest_even (z d : Z) : Z :=
  let q := z / d in
  let r := z mod d in
  match 2 * r ?= d with
  | Lt => q
  | Gt => q + 1
  | Eq => if Z.even q then q else q + 1
  end.

(** The decimal exponent [k] of the positive fraction [num / den]:
    [10 ^ (k - 1) <= num / den < 10 ^ k]. *)
Definition decimal_exponent (num den : Z) : Z :=
  if den <=? num then digits10 (num / den)
  else 1 - digits10 ((den - 1) / num).

(** [num / den] rounded to [n] significant decimal digits: the digits as
    an integer [d] and the exponent [x] with [d * 10 ^ x] the rounded
    number. *)
Definition round_digits (num den : Z) (n : Z) : Z * Z :=
  let x := decimal_exponent num den - n in
  let d := if 0 <=? x then div_nearest_even num (den * 10 ^ x)
           else div_nearest_even (num * 10 ^ (- x)) den in
  (d, x).

Definition same_finite (f : spec_float) (m : positive) (e : Z) : bool :=
  match f with
  | S754_finite false m' e' => Pos.eqb m m' && Z.eqb e e'
  | _ => false
  end.

(** The shortest decimal that [float()] reads back as [m * 2 ^ e], looked
    for among the roundings to 1, 2, ... digits; 17 digits always do.
    [fuel] counts the lengths still to try after [n]. *)
Fixpoint shortest (m : positive) (e : Z) (num den : Z) (n : Z) (fuel : nat) : Z * Z :=
  let '(d, x) := round_digits num den n in
  match fuel with
  | O => (d, x)
  | S fuel' =>
      if same_finite (float_of_decimal false d x) m e then (d, x)
      else shortest m e num den (n + 1) fuel'
  end.

Fixpoint zeros (n : nat) : string :=
  match n with
  | O => EmptyString
  | S n' => String "0" (zeros n')
  end.

Fixpoint drop_zeros_rev (s : list ascii) : list ascii :=
  match s with
  | c :: s' => if Ascii.eqb c "0" then drop_zeros_rev s' else s
  | [] => []
  end.

(** The digits of [d] without its trailing zeros. *)
Definition significant (d : Z) : string :=
  string_of_list_ascii
    (rev (drop_zeros_rev (rev (list_ascii_of_string (str_int d))))).

(** The two layouts of [repr]: [digits] are read as the fraction
    [0.digits], scaled by [10 ^ decpt]. *)
Definition layout (digits : string) (decpt : Z) : string :=
  let len := Z.of_nat (String.length digits) in
  if (-4 <? decpt) && (decpt <=? 16) then
    if decpt <=? 0 then "0." +:+ zeros (Z.to_nat (- decpt)) +:+ digits
    else if len <=? decpt then
      digits +:+ zeros (Z.to_nat (decpt - len)) +:+ ".0"
    else
      String.substring 0 (Z.to_nat decpt) digits +:+ "." +:+
      String.substring (Z.to_nat decpt) (Z.to_nat (len - decpt)) digits
  else
    let x := decpt - 1 in
    let mant :=
      match digits with
      | String c EmptyString => digits
      | String c rest => String c ("." +:+ rest)
      | EmptyString => digits
      end in
    mant +:+ "e" +:+ (if x <? 0 then "-" else "+") +:+
    (if Z.abs x <? 10 then "0" else "") +:+ str_int (Z.abs x).

(** [str(f)], which is [repr(f)], for a [float]. *)
Definition str_float (f : spec_float) : string :=
  match f with
  | S754_nan => "nan"
  | S754_infinity s => if s then "-inf" else "inf"
  | S754_zero s => if s then "-0.0" else "0.0"
  | S754_finite s m e =>
      let '(num, den) :=
        if 0 <=? e then (Zpos m * 2 ^ e, 1) else (Zpos m, 2 ^ (- e)) in
      let '(d, x) := shortest m e num den 1 16 in
      (if s then "-" else "") +:+
      layout (significant d) (digits10 d + x)
  end.

End Num.

(** ** Values *)

(** The callables that [standard_environment] installs, named after the
    Python objects; a lambda is named after its key. [operator.add] and
    [operator.eq] are each installed under two keys. The functions of the
    [math] module are [math_function name]. *)
Inductive proc : Type :=
| operator_add | operator_sub | operator_mul | operator_truediv
| operator_gt | operator_lt | operator_ge | operator_le | operator_eq
| builtin_abs | lambda_apply | lambda_begin | lambda_car | lambda_cdr
| lambda_cons | operator_is | builtin_pow | builtin_len | lambda_list
| lambda_is_list | builtin_map | builtin_max | builtin_min | operator_not
| lambda_is_null | lambda_is_number | builtin_print | builtin_callable
| builtin_round | lambda_is_symbol
| math_function (name : string).

(** The Python objects the program handles. [Symbol = str],
    [Number = (int, float)] and [bool] is a subclass of [int];
    [List = list]; [None] is what [eval] returns for a definition. The same
    objects serve as expressions and as results. *)
#[warnings="-register-all"]
Inductive value : Type :=
| VInt (z : Z)
| VFloat (f : spec_float)
| VBool (b : bool)
| VStr (s : string)
| VList (l : list value)
| VNone
| VProc (p : proc).

(** ** Atom classifier and reader *)

(** [try: return int(token) except ValueError: try: return float(token)
    except ValueError: return Symbol(token)] *)
Definition atom (token : string) : value :=
  match Num.int token with
  | Some z => VInt z
  | None =>
      match Num.float token with
      | Some f => VFloat f
      | None => VStr token
      end
  end.

Definition unexpected_EOF : exn := SyntaxError "unexpected EOF".
Definition unexpected_close : exn := SyntaxError "unexpected )".

(** [read_from_tokens] pops tokens off the front of a shared list; here it
    returns the expression together with the tokens left. The function and
    its [while] loop call each other; [fuel] bounds the number of calls and
    loop turns, and [None] means that the bound was too small
    ([read_fuel_enough] shows that twice the number of tokens will do).

    In the loop, [tokens[0]] is evaluated before anything else: on an
    empty list it raises [IndexError]. *)
Fixpoint read_fuel (fuel : nat) (tokens : list string)
  : option (result (value * list string)) :=
  match fuel with
  | O => None
  | S fuel' =>
      match tokens with
      | [] => Some (Raise unexpected_EOF)
      | token :: tokens' =>
          if String.eqb token "(" then read_loop fuel' tokens' []
          else if String.eqb token ")" then Some (Raise unexpected_close)
          else Some (Ok (atom token, tokens'))
      end
  end
with read_loop (fuel : nat) (tokens : list string) (L : list value)
  : option (result (value * list string)) :=
  match fuel with
  | O => None
  | S fuel' =>
      match tokens with
      | [] => Some (Raise IndexError)
      | token :: tokens' =>
          if String.eqb token ")" then Some (Ok (VList L, tokens'))
          else
            match read_fuel fuel' tokens with
            | Some (Ok (x, tokens'')) => read_loop fuel' tokens'' (L ++ [x])
            | Some (Raise e) => Some (Raise e)
            | None => None
            end
      end
  end.

(** Twice the number of tokens, plus one. *)
Fixpoint enough (tokens : list string) : nat :=
  match tokens with
  | [] => 1
  | _ :: tokens' => S (S (enough tokens'))
  end.

(** [read_from_tokens(tokens)]. The fuel given always suffices
    ([read_fuel_enough]): the second case does not arise. *)
Definition read_from_tokens (tokens : list string)
  : result (value * list string) :=
  match read_fuel (enough tokens) tokens with
  | Some r => r
  | None => Raise unexpected_EOF
  end.

(** [read_from_tokens(tokenize(program))] *)
Definition parse (program : string) : result value :=
  match read_from_tokens (tokenize program) with
  | Ok (x, _) => Ok x
  | Raise e => Raise e
  end.

(** The [while] loop of the reader as a total function; again the second
    case does not arise ([read_loop_enough]). *)
Definition read_list (tokens : list string) (L : list value)
  : result (value * list string) :=
  match read_loop (S (enough tokens)) tokens L with
  | Some r => r
  | None => Raise IndexError
  end.

(** What is left after an expression was read is shorter than what there
    was. *)
Definition consumes (r : result (value * list string)) (tokens : list string) : Prop :=
  match r with
  | Ok (_, rest) => (length rest < length tokens)%nat
  | Raise _ => True
  end.

(** ** What the host supplies *)

(** Three things lie outside the embedding and are taken as given:
    - the builtins that call a procedure they are given, or whose results
      depend on the floating-point library, on output or on lazy iterators
      ([apply], [expt], [map], [max], [min], [print], [round] and the
      functions of [math]);
    - object identity, which [eq?] tests and which list comparison consults
      before [==];
    - the text [str()] gives for a procedure, which shows an address.
    No builtin has access to the dictionary of the evaluator. *)
Record Host : Type := {
  host_call : proc -> list value -> result value;
  host_is : value -> value -> bool;
  host_str : proc -> string
}.

(** ** The builtins *)

Module Py.

(** [bool(v)] *)
Definition truthy (v : value) : bool :=
  match v with
  | VInt z => negb (z =? 0)
  | VFloat (S754_zero _) => false
  | VFloat _ => true
  | VBool b => b
  | VStr EmptyString => false
  | VStr _ => true
  | VList [] => false
  | VList _ => true
  | VNone => false
  | VProc _ => true
  end.

(** The numeric reading of an object: [bool] is a subclass of [int]. *)
Inductive number : Type :=
| NInt (z : Z)
| NFloat (f : spec_float).

Definition as_number (v : value) : option number :=
  match v with
  | VInt z => Some (NInt z)
  | VBool b => Some (NInt (Z.b2z b))
  | VFloat f => Some (NFloat f)
  | _ => None
  end.

(** [float(z)] for an [int], as arithmetic on mixed operands does it. *)
Definition float_of_int (z : Z) : result spec_float :=
  match binary_normalize Num.prec Num.emax z 0 false with
  | S754_infinity _ => Raise OverflowError
  | f => Ok f
  end.

Definition arith (fi : Z -> Z -> Z)
    (ff : spec_float -> spec_float -> spec_float) (a b : number)
  : result value :=
  match a, b with
  | NInt x, NInt y => Ok (VInt (fi x y))
  | NFloat x, NFloat y => Ok (VFloat (ff x y))
  | NInt x, NFloat y =>
      match float_of_int x with
      | Ok x' => Ok (VFloat (ff x' y))
      | Raise e => Raise e
      end
  | NFloat x, NInt y =>
      match float_of_int y with
      | Ok y' => Ok (VFloat (ff x y'))
      | Raise e => Raise e
      end
  end.

(** [operator.add]: numbers are added, two strings or two lists are
    concatenated. *)
Definition add (a b : value) : result value :=
  match as_number a, as_number b with
  | Some x, Some y => arith Z.add (SFadd Num.prec Num.emax) x y
  | _, _ =>
      match a, b with
      | VStr s, VStr t => Ok (VStr (s +:+ t))
      | VList l, VList m => Ok (VList (l ++ m))
      | _, _ => Raise TypeError
      end
  end.

(** [operator.sub] *)
Definition sub (a b : value) : result value :=
  match as_number a, as_number b with
  | Some x, Some y => arith Z.sub (SFsub Num.prec Num.emax) x y
  | _, _ => Raise TypeError
  end.

Fixpoint repeat_list {A} (n : nat) (l : list A) : list A :=
  match n with
  | O => []
  | S n' => l ++ repeat_list n' l
  end.

Fixpoint repeat_str (n : nat) (s : string) : string :=
  match n with
  | O => EmptyString
  | S n' => s +:+ repeat_str n' s
  end.

Definition as_int (v : value) : option Z :=
  match v with
  | VInt z => Some z
  | VBool b => Some (Z.b2z b)
  | _ => None
  end.

(** [operator.mul]: numbers are multiplied, a string or a list is repeated
    by an [int]. *)
Definition mul (a b : value) : result value :=
  match as_number a, as_number b with
  | Some x, Some y => arith Z.mul (SFmul Num.prec Num.emax) x y
  | _, _ =>
      match a, as_int b, as_int a, b with
      | VStr s, Some n, _, _ => Ok (VStr (repeat_str (Z.to_nat n) s))
      | VList l, Some n, _, _ => Ok (VList (repeat_list (Z.to_nat n) l))
      | _, _, Some n, VStr s => Ok (VStr (repeat_str (Z.to_nat n) s))
      | _, _, Some n, VList l => Ok (VList (repeat_list (Z.to_nat n) l))
      | _, _, _, _ => Raise TypeError
      end
  end.

(** The quotient of two integers as the nearest [float]. *)
Definition int_truediv (x y : Z) : result value :=
  if y =? 0 then Raise ZeroDivisionError
  else
    let neg := xorb (x <? 0) (y <? 0) in
    if x =? 0 then Ok (VFloat (S754_zero neg))
    else
      let '(q, e, l) :=
        SFdiv_core_binary Num.prec Num.emax (Z.abs x) 0 (Z.abs y) 0 in
      match binary_round_aux Num.prec Num.emax neg q e l with
      | S754_infinity _ => Raise OverflowError
      | f => Ok (VFloat f)
      end.

Definition float_truediv (x y : spec_float) : result value :=
  match y with
  | S754_zero _ => Raise ZeroDivisionError
  | _ => Ok (VFloat (SFdiv Num.prec Num.emax x y))
  end.

(** [operator.truediv] *)
Definition truediv (a b : value) : result value :=
  match as_number a, as_number b with
  | Some (NInt x), Some (NInt y) => int_truediv x y
  | Some (NFloat x), Some (NFloat y) => float_truediv x y
  | Some (NInt x), Some (NFloat y) =>
      match float_of_int x with
      | Ok x' => float_truediv x' y
      | Raise e => Raise e
      end
  | Some (NFloat x), Some (NInt y) =>
      match float_of_int y with
      | Ok y' => float_truediv x y'
      | Raise e => Raise e
      end
  | _, _ => Raise TypeError
  end.

(** [abs] *)
Definition abs (a : value) : result value :=
  match as_number a with
  | Some (NInt x) => Ok (VInt (Z.abs x))
  | Some (NFloat x) => Ok (VFloat (SFabs x))
  | None => Raise TypeError
  end.

(** An [int] against a [float], compared exactly; [None] when the float is
    not a number. *)
Definition compare_int_float (z : Z) (f : spec_float) : option comparison :=
  match f with
  | S754_nan => None
  | S754_infinity s => Some (if s then Gt else Lt)
  | S754_zero _ => Some (z ?= 0)
  | S754_finite s m e =>
      let v := if s then Zneg m else Zpos m in
      Some (if 0 <=? e then z ?= v * 2 ^ e else z * 2 ^ (- e) ?= v)
  end.

Definition compare_numbers (a b : number) : option comparison :=
  match a, b with
  | NInt x, NInt y => Some (x ?= y)
  | NFloat x, NFloat y => SFcompare x y
  | NInt x, NFloat y => compare_int_float x y
  | NFloat x, NInt y => option_map CompOpp (compare_int_float y x)
  end.

(** The four ordering operators. *)
Inductive relop : Type := GT | LT | GE | LE.

(** Whether an ordering holds, given how the operands compare; nothing
    holds of operands that do not compare (a NaN). *)
Definition holds (op : relop) (c : option comparison) : bool :=
  match op, c with
  | GT, Some Gt | LT, Some Lt => true
  | GE, Some (Gt | Eq) | LE, Some (Lt | Eq) => true
  | _, _ => false
  end.

Definition proc_eqb (p q : proc) : bool :=
  match p, q with
  | operator_add, operator_add | operator_sub, operator_sub
  | operator_mul, operator_mul | operator_truediv, operator_truediv
  | operator_gt, operator_gt | operator_lt, operator_lt
  | operator_ge, operator_ge | operator_le, operator_le
  | operator_eq, operator_eq | builtin_abs, builtin_abs
  | lambda_apply, lambda_apply | lambda_begin, lambda_begin
  | lambda_car, lambda_car | lambda_cdr, lambda_cdr
  | lambda_cons, lambda_cons | operator_is, operator_is
  | builtin_pow, builtin_pow | builtin_len, builtin_len
  | lambda_list, lambda_list | lambda_is_list, lambda_is_list
  | builtin_map, builtin_map | builtin_max, builtin_max
  | builtin_min, builtin_min | operator_not, operator_not
  | lambda_is_null, lambda_is_null | lambda_is_number, lambda_is_number
  | builtin_print, builtin_print | builtin_callable, builtin_callable
  | builtin_round, builtin_round | lambda_is_symbol, lambda_is_symbol => true
  | math_function m, math_function n => String.eqb m n
  | _, _ => false
  end.

Section Compare.

Variable host : Host.

(** [a == b]: numbers by value, strings by text, lists by length and then
    item by item, each pair of items being tested for identity first;
    [None] and procedures only equal themselves; objects of unrelated
    types differ. *)
Fixpoint eq (a b : value) {struct a} : bool :=
  match as_number a, as_number b with
  | Some x, Some y =>
      match compare_numbers x y with
      | Some Eq => true
      | _ => false
      end
  | _, _ =>
      match a, b with
      | VStr s, VStr t => String.eqb s t
      | VList l, VList m =>
          (fix items (l m : list value) {struct l} : bool :=
             match l, m with
             | [], [] => true
             | x :: l', y :: m' => (host_is host x y || eq x y) && items l' m'
             | _, _ => false
             end) l m
      | VNone, VNone => true
      | VProc p, VProc q => proc_eqb p q
      | _, _ => false
      end
  end.

(** [a > b], [a < b], [a >= b], [a <= b]: numbers by value, strings by code
    points, lists by the first pair of items that differ, or by length when
    there is none; objects of other or of unrelated types do not order. *)
Fixpoint order (op : relop) (a b : value) {struct a} : result bool :=
  match as_number a, as_number b with
  | Some x, Some y => Ok (holds op (compare_numbers x y))
  | _, _ =>
      match a, b with
      | VStr s, VStr t => Ok (holds op (Some (String.compare s t)))
      | VList l, VList m =>
          (fix items (l m : list value) {struct l} : result bool :=
             match l, m with
             | x :: l', y :: m' =>
                 if host_is host x y || eq x y then items l' m'
                 else order op x y
             | [], [] => Ok (holds op (Some Eq))
             | [], _ :: _ => Ok (holds op (Some Lt))
             | _ :: _, [] => Ok (holds op (Some Gt))
             end) l m
      | _, _ => Raise TypeError
      end
  end.

Definition compare (op : relop) (a b : value) : result value :=
  match order op a b with
  | Ok r => Ok (VBool r)
  | Raise e => Raise e
  end.

End Compare.

(** [lambda x: x[0]] *)
Definition car (x : value) : result value :=
  match x with
  | VList (v :: _) => Ok v
  | VStr (String c _) => Ok (VStr (String c EmptyString))
  | VList [] | VStr EmptyString => Raise IndexError
  | _ => Raise TypeError
  end.

(** [lambda x: x[1:]] *)
Definition cdr (x : value) : result value :=
  match x with
  | VList l => Ok (VList (tl l))
  | VStr (String _ s) => Ok (VStr s)
  | VStr EmptyString => Ok x
  | _ => Raise TypeError
  end.

(** [lambda x,y: [x] + y] *)
Definition cons (x y : value) : result value :=
  match y with
  | VList l => Ok (VList (x :: l))
  | _ => Raise TypeError
  end.

(** [len] *)
Definition len (x : value) : result value :=
  match x with
  | VList l => Ok (VInt (Z.of_nat (length l)))
  | VStr s => Ok (VInt (Z.of_nat (String.length s)))
  | _ => Raise TypeError
  end.

(** [lambda *x: x[-1]] *)
Definition begin (x : list value) : result value :=
  match last x with
  | Some v => Ok v
  | None => Raise IndexError
  end.

Definition is_list (x : value) : bool :=
  match x with VList _ => true | _ => false end.

(** [lambda x: x == []] *)
Definition is_null (x : value) : bool :=
  match x with VList [] => true | _ => false end.

(** [lambda x: isinstance(x, Number)] *)
Definition is_number (x : value) : bool :=
  match x with VInt _ | VFloat _ | VBool _ => true | _ => false end.

(** [lambda x: isinstance(x, Symbol)] *)
Definition is_symbol (x : value) : bool :=
  match x with VStr _ => true | _ => false end.

Definition callable (x : value) : bool :=
  match x with VProc _ => true | _ => false end.

(** Calling the procedure [p] on the unpacked [args]; a wrong number of
    arguments is a [TypeError]. *)
Definition call (host : Host) (p : proc) (args : list value) : result value :=
  match p, args with
  | operator_add, [a; b] => add a b
  | operator_sub, [a; b] => sub a b
  | operator_mul, [a; b] => mul a b
  | operator_truediv, [a; b] => truediv a b
  | operator_gt, [a; b] => compare host GT a b
  | operator_lt, [a; b] => compare host LT a b
  | operator_ge, [a; b] => compare host GE a b
  | operator_le, [a; b] => compare host LE a b
  | operator_eq, [a; b] => Ok (VBool (eq host a b))
  | operator_is, [a; b] => Ok (VBool (host_is host a b))
  | operator_not, [a] => Ok (VBool (negb (truthy a)))
  | builtin_abs, [a] => abs a
  | builtin_len, [a] => len a
  | builtin_callable, [a] => Ok (VBool (callable a))
  | lambda_car, [a] => car a
  | lambda_cdr, [a] => cdr a
  | lambda_cons, [a; b] => cons a b
  | lambda_is_list, [a] => Ok (VBool (is_list a))
  | lambda_is_null, [a] => Ok (VBool (is_null a))
  | lambda_is_number, [a] => Ok (VBool (is_number a))
  | lambda_is_symbol, [a] => Ok (VBool (is_symbol a))
  | lambda_begin, _ => begin args
  | lambda_list, _ => Ok (VList args)
  | (lambda_apply | builtin_pow | builtin_map | builtin_max | builtin_min
     | builtin_print | builtin_round | math_function _), _ =>
      host_call host p args
  | _, _ => Raise TypeError
  end.

End Py.

(** ** Environment *)

(** The dictionary literal of [standard_environment]. *)
Definition builtins : list (string * value) :=
  [ ("+", VProc operator_add);
    ("-", VProc operator_sub);
    ("*", VProc operator_mul);
    ("/", VProc operator_truediv);
    (">", VProc operator_gt);
    ("<", VProc operator_lt);
    (">=", VProc operator_ge);
    ("<=", VProc operator_le);
    ("=", VProc operator_eq);
    ("abs", VProc builtin_abs);
    ("append", VProc operator_add);
    ("apply", VProc lambda_apply);
    ("begin", VProc lambda_begin);
    ("car", VProc lambda_car);
    ("cdr", VProc lambda_cdr);
    ("cons", VProc lambda_cons);
    ("eq?", VProc operator_is);
    ("expt", VProc builtin_pow);
    ("equal?", VProc operator_eq);
    ("length", VProc builtin_len);
    ("list", VProc lambda_list);
    ("list?", VProc lambda_is_list);
    ("map", VProc builtin_map);
    ("max", VProc builtin_max);
    ("min", VProc builtin_min);
    ("not", VProc operator_not);
    ("null?", VProc lambda_is_null);
    ("number?", VProc lambda_is_number);
    ("print", VProc builtin_print);
    ("procedure?", VProc builtin_callable);
    ("round", VProc builtin_round);
    ("symbol?", VProc lambda_is_symbol) ]%string.

(** [env.update(vars(math))] followed by [env.update({...})]: the entries
    of the literal win over those of the [math] module, whose namespace
    [math_vars] is given. Keys other than strings, which a definition can
    add, are never looked up; the dictionary is modelled on its string
    keys. *)
Definition standard_environment (math_vars : gmap string value)
  : gmap string value :=
  list_to_map builtins ∪ math_vars.

(** ** Evaluator *)

Section Evaluator.

Variable host : Host.

(** [x[0] == 'if'], [x[0] == 'define'] *)
Definition is_keyword (head : value) (keyword : string) : bool :=
  match head with
  | VStr s => String.eqb s keyword
  | _ => false
  end.

(** [env[symbol] = v]: a list cannot be a key. *)
Definition store (symbol v : value) (env : gmap string value)
  : result value * gmap string value :=
  match symbol with
  | VStr name => (Ok VNone, <[name := v]> env)
  | VList _ => (Raise TypeError, env)
  | _ => (Ok VNone, env)
  end.

(** Calling the object [proc] on the unpacked [args] *)
Definition apply (proc : value) (args : list value) : result value :=
  match proc with
  | VProc p => Py.call host p args
  | _ => Raise TypeError
  end.

(** [eval(x, env)] returns the value or the exception together with the
    dictionary as the call leaves it. The recursion follows the
    expression; the interpreter's limit on the depth of calls is left
    out. *)
Fixpoint eval (x : value) (env : gmap string value) {struct x}
  : result value * gmap string value :=
  match x with
  | VStr s =>
      match env !! s with
      | Some v => (Ok v, env)
      | None => (Raise (KeyError s), env)
      end
  | VInt _ | VFloat _ | VBool _ => (Ok x, env)
  | VList [] => (Raise IndexError, env)
  | VList (head :: rest) =>
      if is_keyword head "if" then
        match rest with
        | [test; conseq; alt] =>
            match eval test env with
            | (Ok v, env1) =>
                if Py.truthy v then eval conseq env1 else eval alt env1
            | (Raise e, env1) => (Raise e, env1)
            end
        | _ => (Raise ValueError, env)
        end
      else if is_keyword head "define" then
        match rest with
        | [symbol; exp] =>
            match eval exp env with
            | (Ok v, env1) => store symbol v env1
            | (Raise e, env1) => (Raise e, env1)
            end
        | _ => (Raise ValueError, env)
        end
      else
        match eval head env with
        | (Ok proc, env1) =>
            match
              (fix eval_args (xs : list value) (env : gmap string value)
                 {struct xs} : result (list value) * gmap string value :=
                 match xs with
                 | [] => (Ok [], env)
                 | arg :: xs' =>
                     match eval arg env with
                     | (Ok v, env') =>
                         match eval_args xs' env' with
                         | (Ok vs, env'') => (Ok (v :: vs), env'')
                         | (Raise e, env'') => (Raise e, env'')
                         end
                     | (Raise e, env') => (Raise e, env')
                     end
                 end) rest env1
            with
            | (Ok args, env2) => (apply proc args, env2)
            | (Raise e, env2) => (Raise e, env2)
            end
        | (Raise e, env1) => (Raise e, env1)
        end
  | VNone | VProc _ => (Raise TypeError, env)
  end.

(** [[eval(arg, env) for arg in xs]] *)
Fixpoint eval_args (xs : list value) (env : gmap string value)
  : result (list value) * gmap string value :=
  match xs with
  | [] => (Ok [], env)
  | arg :: xs' =>
      match eval arg env with
      | (Ok v, env') =>
          match eval_args xs' env' with
          | (Ok vs, env'') => (Ok (v :: vs), env'')
          | (Raise e, env'') => (Raise e, env'')
          end
      | (Raise e, env') => (Raise e, env')
      end
  end.

(** ** Printer *)

(** [str(exp)] for an object that is not a list. *)
Definition str (exp : value) : string :=
  match exp with
  | VInt z => Num.str_int z
  | VFloat f => Num.str_float f
  | VBool b => if b then "True" else "False"
  | VStr s => s
  | VNone => "None"
  | VProc p => host_str host p
  | VList _ => EmptyString
  end.

Fixpoint schemestr (exp : value) : string :=
  match exp with
  | VList l => "(" +:+ Str.join " " (map schemestr l) +:+ ")"
  | _ => str exp
  end.

(** The tokens of the print of a tree. *)
Fixpoint tokens_of (t : value) : list string :=
  match t with
  | VList l => "("%string :: concat (map tokens_of l) ++ [")"%string]
  | _ => [str t]
  end.

(** ** Driver *)

(** [eval(parse(program))] against the dictionary [env]. *)
Definition run (program : string) (env : gmap string value)
  : result value * gmap string value :=
  match parse program with
  | Ok x => eval x env
  | Raise e => (Raise e, env)
  end.

End Evaluator.

(** ** Auxiliary notions for the statements *)

(** A host that supplies nothing: its optional builtins fail, no two
    objects are identical, procedures print as a fixed text. It serves to
    run closed examples, none of which calls an optional builtin. *)
Definition bare_host : Host :=
  {| host_call := fun _ _ => Raise TypeError;
     host_is := fun _ _ => false;
     host_str := fun _ => "<procedure>"%string |}.

(** No list inside [x] is headed by the symbol [define]. *)
Fixpoint define_free (x : value) : bool :=
  match x with
  | VList l =>
      match l with
      | head :: _ => negb (is_keyword head "define")
      | [] => true
      end && forallb define_free l
  | _ => true
  end.


(** A decimal or exponential literal, in the words of the specification: an
    optional sign, digits with an optional point, an optional exponent. *)
Definition decimal_literal (s : string) : bool :=
  let '(_, r) := Num.split_sign s in
  match Num.decimal r with
  | Some _ => true
  | None => false
  end.

(** The names that [float()] reads besides the literals: [inf], [infinity]
    and [nan], in any letter case, after an optional sign. *)
Definition special_name (s : string) : bool :=
  let '(_, r) := Num.split_sign s in
  let l := Num.lowercase r in
  String.eqb l "inf" || String.eqb l "infinity" || String.eqb l "nan".

Fixpoint all_chars (P : ascii -> bool) (s : string) : bool :=
  match s with
  | String c s' => P c && all_chars P s'
  | EmptyString => true
  end.

(** A text without white space and without underscore. *)
Definition plain_char (c : ascii) : bool :=
  negb (Num.isspace c) && negb (Ascii.eqb c "_").

Definition plain (s : string) : bool := all_chars plain_char s.

(** The characters a decimal or exponential literal is made of. *)
Definition literal_char (c : ascii) : bool :=
  Str.isdigit c || Ascii.eqb c "." || Ascii.eqb c "e" || Ascii.eqb c "E"
  || Ascii.eqb c "+" || Ascii.eqb c "-".

(** A token of the reader other than a parenthesis: a non-empty text
    without the white space of [split] and without parentheses. *)
Definition token_char (c : ascii) : bool :=
  negb (Str.isspace c) && negb (Ascii.eqb c "(") && negb (Ascii.eqb c ")").

Definition token_text (s : string) : bool :=
  negb (String.eqb s "") && all_chars token_char s.

Definition float_eqb (f g : spec_float) : bool :=
  match f, g with
  | S754_nan, S754_nan => true
  | S754_zero s, S754_zero t | S754_infinity s, S754_infinity t =>
      Bool.eqb s t
  | S754_finite s m e, S754_finite t n x =>
      Bool.eqb s t && Pos.eqb m n && Z.eqb e x
  | _, _ => false
  end.

(** Whether two atoms are the same atom. *)
Definition atom_eqb (a b : value) : bool :=
  match a, b with
  | VInt x, VInt y => Z.eqb x y
  | VFloat f, VFloat g => float_eqb f g
  | VStr s, VStr t => String.eqb s t
  | _, _ => false
  end.

Definition is_nan (a : value) : bool :=
  match a with
  | VFloat S754_nan => true
  | _ => false
  end.

(** The atoms of a simple list:
    - every integer;
    - a symbol whose text is one token and is not read as a number;
    - a float, not a NaN (which equals nothing), whose print is one token
      that is read back as the same float. *)
Definition simple_atom (a : value) : bool :=
  match a with
  | VInt _ => true
  | VStr s =>
      token_text s
      && match Num.int s, Num.float s with
         | None, None => true
         | _, _ => false
         end
  | VFloat f =>
      negb (is_nan a)
      && token_text (Num.str_float f)
      && match Num.int (Num.str_float f), Num.float (Num.str_float f) with
         | None, Some g => float_eqb g f
         | _, _ => false
         end
  | _ => false
  end.

(** A simple tree: a simple atom, or a list of simple trees. *)
Fixpoint simple_tree (t : value) : bool :=
  match t with
  | VList l => forallb simple_tree l
  | _ => simple_atom t
  end.


(** The characters of a printed integer. *)
Definition sign_or_digit (c : ascii) : bool :=
  Str.isdigit c || Ascii.eqb c "-".

(** The number a decimal numeral stands for, its digits being appended to
    those of [acc]. *)
Fixpoint uint_value (acc : Z) (d : Decimal.uint) : Z :=
  match d with
  | Nil => acc
  | D0 d' => uint_value (10 * acc + 0) d'
  | D1 d' => uint_value (10 * acc + 1) d'
  | D2 d' => uint_value (10 * acc + 2) d'
  | D3 d' => uint_value (10 * acc + 3) d'
  | D4 d' => uint_value (10 * acc + 4) d'
  | D5 d' => uint_value (10 * acc + 5) d'
  | D6 d' => uint_value (10 * acc + 6) d'
  | D7 d' => uint_value (10 * acc + 7) d'
  | D8 d' => uint_value (10 * acc + 8) d'
  | D9 d' => uint_value (10 * acc + 9) d'
  end.

(** A text that does not continue the token before it: it is empty, or
    begins with white space or a parenthesis. *)
Definition delimited (s : string) : bool :=
  match s with
  | String c _ => negb (token_char c)
  | EmptyString => true
  end.

(** ** The read-eval-print loop *)



Section Loop.

Variable host : Host.



End Loop.

(** ** Further notions for the statements *)

(** A token that is a parenthesis or a text between parentheses and white
    space. *)
Definition is_token (t : string) : bool :=
  String.eqb t "(" || String.eqb t ")" || token_text t.

(** The characters of the texts that [int()] and [float()] read: digits,
    point, exponent mark, signs, underscore and, in either case, the
    letters of [inf], [infinity] and [nan]. *)
Definition special_letter (c : ascii) : bool :=
  Ascii.eqb c "i" || Ascii.eqb c "n" || Ascii.eqb c "f" || Ascii.eqb c "t"
  || Ascii.eqb c "y" || Ascii.eqb c "a".

Definition numeric_char (c : ascii) : bool :=
  literal_char c || Ascii.eqb c "_" || special_letter (Num.lower c).

(** A character that a numeral may hold or that is stripped around it. *)
Definition numeral_char (c : ascii) : bool :=
  Num.isspace c || numeric_char c.


(** No NaN occurs in the object. *)
Fixpoint nan_free (v : value) : bool :=
  match v with
  | VFloat S754_nan => false
  | VList l => forallb nan_free l
  | _ => true
  end.


(** The word is among the tokens. *)
Definition mentions (word : string) (tokens : list string) : bool :=
  existsb (String.eqb word) tokens.
(** * Properties *)

(** ** Facts about the tokenizer *)

Lemma append_empty_r (s : string) : s +:+ EmptyString = s.
Proof. induction s as [|c s IH]; simpl; [reflexivity | now rewrite IH]. Qed.

Lemma append_assoc (a b c : string) : (a +:+ b) +:+ c = a +:+ (b +:+ c).
Proof. induction a as [|x a IH]; simpl; [reflexivity | now rewrite IH]. Qed.

Lemma tokenize_lex_from (word s : string) :
  Str.split_from word (Str.replace ")" " ) " (Str.replace "(" " ( " s))
  = lex_from word s.
Proof.
  revert word; induction s as [|c s IH]; intros word; simpl; [reflexivity|].
  destruct (Ascii.eqb c "(") eqn:Eo.
  - apply Ascii.eqb_eq in Eo; subst c.
    change (" ( " +:+ ?x) with (String " " (String "(" (String " " x))).
    simpl. now rewrite IH.
  - simpl. destruct (Ascii.eqb c ")") eqn:Ec.
    + apply Ascii.eqb_eq in Ec; subst c. simpl. now rewrite IH.
    + simpl. destruct (Str.isspace c); now rewrite IH.
Qed.

Lemma tokenize_lex chars : tokenize chars = lex chars.
Proof. apply tokenize_lex_from. Qed.

(** C6. The tokenizer is a total function of the text: it returns the token
    sequence in which "(" and ")" stand alone and all other content is cut at
    white space ([lex]); the empty text gives no token, and "(+ 1 2)" gives
    "(", "+", "1", "2", ")". *)
Theorem tokenize_spec :
  (forall chars, tokenize chars = lex chars)
  /\ tokenize "" = []
  /\ tokenize "(+ 1 2)" = ["("; "+"; "1"; "2"; ")"]%string.
Proof.
  split; [exact tokenize_lex|]. split; reflexivity.
Qed.

(** ** Induction over values *)

(** Induction over values that reaches into the lists. *)
Lemma value_rect' (P : value -> Type) (Q : list value -> Type)
  (Hint : forall z, P (VInt z)) (Hfloat : forall f, P (VFloat f))
  (Hbool : forall b, P (VBool b)) (Hstr : forall s, P (VStr s))
  (Hlist : forall l, Q l -> P (VList l))
  (Hnone : P VNone) (Hproc : forall p, P (VProc p))
  (Hnil : Q []) (Hcons : forall v l, P v -> Q l -> Q (v :: l)) :
  forall v, P v.
Proof.
  fix IH 1. intros [z|f|b|s|l| |p].
  - apply Hint.
  - apply Hfloat.
  - apply Hbool.
  - apply Hstr.
  - apply Hlist. induction l as [|v l IHl]; [exact Hnil|].
    apply Hcons; [apply IH | exact IHl].
  - exact Hnone.
  - apply Hproc.
Defined.

Lemma value_ind' (P : value -> Prop)
  (Hint : forall z, P (VInt z)) (Hfloat : forall f, P (VFloat f))
  (Hbool : forall b, P (VBool b)) (Hstr : forall s, P (VStr s))
  (Hlist : forall l, Forall P l -> P (VList l))
  (Hnone : P VNone) (Hproc : forall p, P (VProc p)) :
  forall v, P v.
Proof.
  apply (value_rect' P (Forall P)); auto.
Qed.

(** ** Facts about the reader *)

Lemma enough_length tokens : enough tokens = (2 * length tokens + 1)%nat.
Proof. induction tokens as [|t tokens IH]; simpl; lia. Qed.

Lemma read_fuel_total (fuel : nat) :
  forall tokens,
    ((2 * length tokens + 1 <= fuel)%nat ->
     exists r, read_fuel fuel tokens = Some r /\ consumes r tokens)
    /\ (forall L, (2 * length tokens + 2 <= fuel)%nat ->
        exists r, read_loop fuel tokens L = Some r /\ consumes r tokens).
Proof.
  induction fuel as [|fuel IH]; intros tokens; (split; [|intros L]); intros Hf;
    try lia.
  - destruct tokens as [|token tokens']; simpl.
    + eexists; split; [reflexivity | exact I].
    + destruct (String.eqb token "(").
      * destruct (proj2 (IH tokens') []) as (r & Hr & Hc);
          [simpl in Hf; lia|].
        exists r. split; [exact Hr|].
        destruct r as [[x rest]|e]; simpl in *; [lia | exact I].
      * destruct (String.eqb token ")");
          (eexists; split; [reflexivity | simpl; try lia; exact I]).
  - destruct tokens as [|token tokens']; simpl.
    + eexists; split; [reflexivity | exact I].
    + destruct (String.eqb token ")").
      * eexists; split; [reflexivity | simpl; lia].
      * destruct (proj1 (IH (token :: tokens'))) as (r & Hr & Hc);
          [simpl in *; lia|].
        rewrite Hr. destruct r as [[x rest]|e].
        -- simpl in Hc.
           destruct (proj2 (IH rest) (L ++ [x])) as (r' & Hr' & Hc');
             [simpl in *; lia|].
           exists r'. split; [exact Hr'|].
           destruct r' as [[y rest']|e']; simpl in *; [lia | exact I].
        -- eexists; split; [reflexivity | exact I].
Qed.

(** More fuel does not change a result. *)
Lemma read_fuel_mono (fuel : nat) :
  forall tokens r,
    (read_fuel fuel tokens = Some r -> read_fuel (S fuel) tokens = Some r)
    /\ (forall L, read_loop fuel tokens L = Some r ->
                  read_loop (S fuel) tokens L = Some r).
Proof.
  induction fuel as [|fuel IH]; intros tokens r; (split; [|intros L]);
    try discriminate.
  - destruct tokens as [|token tokens']; [trivial|].
    change (read_fuel (S fuel) (token :: tokens')) with
      (if String.eqb token "(" then read_loop fuel tokens' []
       else if String.eqb token ")" then Some (Raise unexpected_close)
       else Some (Ok (atom token, tokens'))).
    change (read_fuel (S (S fuel)) (token :: tokens')) with
      (if String.eqb token "(" then read_loop (S fuel) tokens' []
       else if String.eqb token ")" then Some (Raise unexpected_close)
       else Some (Ok (atom token, tokens'))).
    destruct (String.eqb token "("); [apply IH | trivial].
  - destruct tokens as [|token tokens']; [trivial|].
    change (read_loop (S fuel) (token :: tokens') L) with
      (if String.eqb token ")" then Some (Ok (VList L, tokens'))
       else match read_fuel fuel (token :: tokens') with
            | Some (Ok (x, tokens'')) => read_loop fuel tokens'' (L ++ [x])
            | Some (Raise e) => Some (Raise e)
            | None => None
            end).
    change (read_loop (S (S fuel)) (token :: tokens') L) with
      (if String.eqb token ")" then Some (Ok (VList L, tokens'))
       else match read_fuel (S fuel) (token :: tokens') with
            | Some (Ok (x, tokens'')) => read_loop (S fuel) tokens'' (L ++ [x])
            | Some (Raise e) => Some (Raise e)
            | None => None
            end).
    destruct (String.eqb token ")"); [trivial|].
    destruct (read_fuel fuel (token :: tokens')) as [[[x rest]|e]|] eqn:E;
      [| |discriminate].
    + rewrite (proj1 (IH _ _) E). apply IH.
    + now rewrite (proj1 (IH _ _) E).
Qed.

Lemma read_fuel_more (fuel fuel' : nat) tokens r :
  (fuel <= fuel')%nat ->
  read_fuel fuel tokens = Some r -> read_fuel fuel' tokens = Some r.
Proof.
  induction 1 as [|k _ IH]; [trivial|].
  intros E. apply read_fuel_mono, IH, E.
Qed.

Lemma read_loop_more (fuel fuel' : nat) tokens L r :
  (fuel <= fuel')%nat ->
  read_loop fuel tokens L = Some r -> read_loop fuel' tokens L = Some r.
Proof.
  induction 1 as [|k _ IH]; [trivial|].
  intros E. apply read_fuel_mono, IH, E.
Qed.

(** The reader terminates: with [enough tokens] fuel, and with any larger
    amount, [read_fuel] returns what [read_from_tokens] returns. *)
Lemma read_fuel_enough (fuel : nat) tokens :
  (enough tokens <= fuel)%nat ->
  read_fuel fuel tokens = Some (read_from_tokens tokens).
Proof.
  intros Hf. unfold read_from_tokens.
  destruct (proj1 (read_fuel_total (enough tokens) tokens)) as (r & Hr & _);
    [rewrite enough_length; lia|].
  rewrite Hr. eapply read_fuel_more; eauto.
Qed.

Lemma read_loop_enough (fuel : nat) tokens L :
  (S (enough tokens) <= fuel)%nat ->
  read_loop fuel tokens L = Some (read_list tokens L).
Proof.
  intros Hf. unfold read_list.
  destruct (proj2 (read_fuel_total (S (enough tokens)) tokens) L)
    as (r & Hr & _); [rewrite enough_length; lia|].
  rewrite Hr. eapply read_loop_more; eauto.
Qed.

Lemma read_from_tokens_consumes tokens : consumes (read_from_tokens tokens) tokens.
Proof.
  destruct (proj1 (read_fuel_total (enough tokens) tokens)) as (r & Hr & Hc);
    [rewrite enough_length; lia|].
  rewrite read_fuel_enough in Hr by lia. now injection Hr as ->.
Qed.

(** The equations of the source, free of fuel. *)
Lemma read_from_tokens_nil : read_from_tokens [] = Raise unexpected_EOF.
Proof. reflexivity. Qed.

Lemma read_from_tokens_cons token tokens :
  read_from_tokens (token :: tokens) =
  if String.eqb token "(" then read_list tokens []
  else if String.eqb token ")" then Raise unexpected_close
  else Ok (atom token, tokens).
Proof.
  unfold read_from_tokens.
  change (enough (token :: tokens)) with (S (S (enough tokens))).
  change (read_fuel (S (S (enough tokens))) (token :: tokens)) with
    (if String.eqb token "(" then read_loop (S (enough tokens)) tokens []
     else if String.eqb token ")" then Some (Raise unexpected_close)
     else Some (Ok (atom token, tokens))).
  destruct (String.eqb token "(").
  - now rewrite read_loop_enough by lia.
  - now destruct (String.eqb token ")").
Qed.

Lemma read_list_nil L : read_list [] L = Raise IndexError.
Proof. reflexivity. Qed.

Lemma read_list_cons token tokens L :
  read_list (token :: tokens) L =
  if String.eqb token ")" then Ok (VList L, tokens)
  else match read_from_tokens (token :: tokens) with
       | Ok (x, tokens') => read_list tokens' (L ++ [x])
       | Raise e => Raise e
       end.
Proof.
  unfold read_list at 1.
  change (enough (token :: tokens)) with (S (S (enough tokens))).
  change (read_loop (S (S (S (enough tokens)))) (token :: tokens) L) with
    (if String.eqb token ")" then Some (Ok (VList L, tokens))
     else match read_fuel (S (S (enough tokens))) (token :: tokens) with
          | Some (Ok (x, tokens'')) =>
              read_loop (S (S (enough tokens))) tokens'' (L ++ [x])
          | Some (Raise e) => Some (Raise e)
          | None => None
          end).
  destruct (String.eqb token ")"); [reflexivity|].
  rewrite read_fuel_enough by (simpl; lia).
  pose proof (read_from_tokens_consumes (token :: tokens)) as Hc.
  destruct (read_from_tokens (token :: tokens)) as [[x rest]|e]; [|reflexivity].
  simpl in Hc.
  rewrite read_loop_enough by (rewrite !enough_length; lia). reflexivity.
Qed.


(** ** Equations of the evaluator *)

Section EvaluatorFacts.

Variable host : Host.

(** How the evaluator treats a non-empty list, in the order of the
    source: the [if] form, the [define] form, a procedure call. *)
Lemma eval_list head rest env :
  eval host (VList (head :: rest)) env =
  if is_keyword head "if" then
    match rest with
    | [test; conseq; alt] =>
        match eval host test env with
        | (Ok v, env1) =>
            if Py.truthy v then eval host conseq env1 else eval host alt env1
        | (Raise e, env1) => (Raise e, env1)
        end
    | _ => (Raise ValueError, env)
    end
  else if is_keyword head "define" then
    match rest with
    | [symbol; exp] =>
        match eval host exp env with
        | (Ok v, env1) => store symbol v env1
        | (Raise e, env1) => (Raise e, env1)
        end
    | _ => (Raise ValueError, env)
    end
  else
    match eval host head env with
    | (Ok proc, env1) =>
        match eval_args host rest env1 with
        | (Ok args, env2) => (apply host proc args, env2)
        | (Raise e, env2) => (Raise e, env2)
        end
    | (Raise e, env1) => (Raise e, env1)
    end.
Proof.
  cbn [eval].
  destruct (is_keyword head "if"); [reflexivity|].
  destruct (is_keyword head "define"); [reflexivity|].
  destruct (eval host head env) as [[proc|e] env1]; [|reflexivity].
  match goal with
  | |- match ?f rest env1 with _ => _ end = _ =>
      enough (forall xs env', f xs env' = eval_args host xs env') as ->
        by reflexivity
  end.
  induction xs as [|arg xs IH]; intros env'; [reflexivity|].
  cbn [eval_args].
  destruct (eval host arg env') as [[v|e] env'']; [|reflexivity].
  now rewrite IH.
Qed.

Lemma eval_symbol s env :
  eval host (VStr s) env =
  match env !! s with
  | Some v => (Ok v, env)
  | None => (Raise (KeyError s), env)
  end.
Proof. reflexivity. Qed.

Lemma eval_if_form test conseq alt env :
  eval host (VList [VStr "if"; test; conseq; alt]) env =
  match eval host test env with
  | (Ok v, env1) =>
      if Py.truthy v then eval host conseq env1 else eval host alt env1
  | (Raise e, env1) => (Raise e, env1)
  end.
Proof. now rewrite eval_list. Qed.

Lemma eval_define_form symbol exp env :
  eval host (VList [VStr "define"; symbol; exp]) env =
  match eval host exp env with
  | (Ok v, env1) => store symbol v env1
  | (Raise e, env1) => (Raise e, env1)
  end.
Proof. now rewrite eval_list. Qed.

Lemma eval_call head rest env :
  is_keyword head "if" = false -> is_keyword head "define" = false ->
  eval host (VList (head :: rest)) env =
  match eval host head env with
  | (Ok proc, env1) =>
      match eval_args host rest env1 with
      | (Ok args, env2) => (apply host proc args, env2)
      | (Raise e, env2) => (Raise e, env2)
      end
  | (Raise e, env1) => (Raise e, env1)
  end.
Proof. intros Hi Hd. now rewrite eval_list, Hi, Hd. Qed.

Lemma standard_environment_builtin math_vars key v :
  (list_to_map builtins : gmap string value) !! key = Some v ->
  standard_environment math_vars !! key = Some v.
Proof. intros Hk. unfold standard_environment. now apply lookup_union_Some_l. Qed.

End EvaluatorFacts.

(** ** The reader at the end of the tokens *)



(** A list that is opened and never closed runs the [while] loop off the
    end of the tokens. *)
Lemma read_list_atoms tokens L :
  Forall (fun t => String.eqb t "(" = false /\ String.eqb t ")" = false) tokens ->
  read_list tokens L = Raise IndexError.
Proof.
  intros H. revert L. induction H as [|t ts [Ho Hc] _ IH]; intros L.
  - apply read_list_nil.
  - rewrite read_list_cons, Hc, read_from_tokens_cons, Ho, Hc. apply IH.
Qed.

(** C1. On "(+ 1 2", an open parenthesis that is never closed, parsing
    does not end in the SyntaxError for an unexpected EOF: the loop of the
    reader looks at [tokens[0]] of the exhausted list and raises
    IndexError. The empty text does raise the SyntaxError. *)
Theorem parse_unterminated_list :
  parse "(+ 1 2" = Raise IndexError
  /\ parse "" = Raise (SyntaxError "unexpected EOF").
Proof. split; reflexivity. Qed.

(** ** Special forms *)

Ltac parse_program :=
  unfold run;
  match goal with
  | |- context [parse ?p] =>
      let r := eval vm_compute in (parse p) in
      change (parse p) with r; cbv iota beta
  end.

Ltac lookup_builtin :=
  rewrite eval_symbol;
  erewrite standard_environment_builtin by (vm_compute; reflexivity).

(** C2. A list of four elements headed by the symbol [if] is evaluated by
    evaluating the test and then the consequent if the test's value is
    truthy, the alternative otherwise; the branch that is not selected does
    not take part, whatever it is. "(if (> 3 2) 1 2)" gives 1,
    "(if (> 2 3) 1 2)" gives 2, and with an unbound symbol as the branch
    not taken no error is raised. *)
Theorem if_evaluates_selected_branch (host : Host) :
  (forall test conseq alt env,
     eval host (VList [VStr "if"; test; conseq; alt]) env =
     match eval host test env with
     | (Ok v, env1) =>
         if Py.truthy v then eval host conseq env1 else eval host alt env1
     | (Raise e, env1) => (Raise e, env1)
     end)
  /\ (forall test conseq alt env v env1,
        eval host test env = (Ok v, env1) -> Py.truthy v = true ->
        eval host (VList [VStr "if"; test; conseq; alt]) env
        = eval host conseq env1)
  /\ (forall test conseq alt env v env1,
        eval host test env = (Ok v, env1) -> Py.truthy v = false ->
        eval host (VList [VStr "if"; test; conseq; alt]) env
        = eval host alt env1)
  /\ (forall math_vars,
        fst (run host "(if (> 3 2) 1 2)" (standard_environment math_vars))
        = Ok (VInt 1))
  /\ (forall math_vars,
        fst (run host "(if (> 2 3) 1 2)" (standard_environment math_vars))
        = Ok (VInt 2))
  /\ fst (run host "nowhere" (standard_environment ∅))
     = Raise (KeyError "nowhere")
  /\ fst (run host "(if (> 3 2) 1 nowhere)" (standard_environment ∅))
     = Ok (VInt 1)
  /\ fst (run host "(if (> 2 3) nowhere 2)" (standard_environment ∅))
     = Ok (VInt 2).
Proof.
  split; [exact (eval_if_form host)|].
  split; [intros * Ht Hv; now rewrite eval_if_form, Ht, Hv|].
  split; [intros * Ht Hv; now rewrite eval_if_form, Ht, Hv|].
  split; [|split; [|split; [|split]]]; intros; parse_program;
    try reflexivity;
    rewrite eval_if_form, eval_call by reflexivity; lookup_builtin;
    reflexivity.
Qed.

Lemma if_evaluates_selected_branch_witness :
  eval bare_host (VInt 1) ∅ = (Ok (VInt 1), ∅)
  /\ Py.truthy (VInt 1) = true
  /\ fst (eval bare_host (VStr "nowhere") ∅) = Raise (KeyError "nowhere")
  /\ eval bare_host (VList [VStr "if"; VInt 1; VInt 2; VStr "nowhere"]) ∅
     = eval bare_host (VInt 2) ∅.
Proof.
  split; [reflexivity|]. split; [reflexivity|]. split; [reflexivity|].
  apply (proj1 (proj2 (if_evaluates_selected_branch bare_host))
           (VInt 1) (VInt 2) (VStr "nowhere") ∅ (VInt 1) ∅); reflexivity.
Defined.

(** C3. A list [(define name valueExpr)] is evaluated by evaluating
    [valueExpr]; if that gives a value, the value is stored under [name],
    replacing what was there, and the result is [None]; the symbol [name]
    then evaluates to that value. *)
Theorem define_binds_value (host : Host) :
  (forall name exp env,
     eval host (VList [VStr "define"; VStr name; exp]) env =
     match eval host exp env with
     | (Ok v, env1) => (Ok VNone, <[name := v]> env1)
     | (Raise e, env1) => (Raise e, env1)
     end)
  /\ (forall name v env,
        eval host (VStr name) (<[name := v]> env)
        = (Ok v, <[name := v]> env))
  /\ (forall env,
        let '(r, env1) := run host "(define x 10)" env in
        r = Ok VNone /\ env1 = <["x" := VInt 10]> env
        /\ fst (eval host (VStr "x") env1) = Ok (VInt 10)).
Proof.
  split; [|split].
  - intros name exp env. apply eval_define_form.
  - intros name v env. now rewrite eval_symbol, lookup_insert_eq.
  - intros env. parse_program. rewrite eval_define_form. cbn.
    now rewrite lookup_insert_eq.
Qed.

(** ** What a failed definition leaves behind *)

Lemma eval_args_define_free (host : Host) xs :
  Forall (fun x => forall env,
            define_free x = true -> snd (eval host x env) = env) xs ->
  forall env, forallb define_free xs = true ->
              snd (eval_args host xs env) = env.
Proof.
  induction 1 as [|x xs Hx _ IH]; intros env Hfree; [reflexivity|].
  simpl in Hfree. apply andb_true_iff in Hfree as [Hfx Hfxs].
  cbn [eval_args]. specialize (Hx env Hfx).
  destruct (eval host x env) as [[v|e] env']; simpl in Hx; subst env';
    [|reflexivity].
  specialize (IH env Hfxs).
  now destruct (eval_args host xs env) as [[vs|e] env''].
Qed.

(** An expression without [define] leaves the dictionary as it was, whether
    it returns or raises. *)
Lemma eval_define_free (host : Host) x :
  forall env, define_free x = true -> snd (eval host x env) = env.
Proof.
  induction x as [z|f|b|s|l IH| |p] using value_ind'; intros env Hfree;
    try reflexivity.
  - rewrite eval_symbol. now destruct (env !! s).
  - destruct l as [|head rest]; [reflexivity|].
    cbn [define_free] in Hfree.
    apply andb_true_iff in Hfree as [Hhead Hall].
    apply negb_true_iff in Hhead.
    cbn [forallb] in Hall. apply andb_true_iff in Hall as [Hfh Hfr].
    apply Forall_cons in IH as [IHh IHr].
    rewrite eval_list, Hhead.
    destruct (is_keyword head "if").
    + destruct rest as [|test [|conseq [|alt [|]]]]; try reflexivity.
      apply Forall_cons in IHr as [IHt IHr].
      apply Forall_cons in IHr as [IHc IHr].
      apply Forall_cons in IHr as [IHa _].
      cbn [forallb] in Hfr.
      apply andb_true_iff in Hfr as [Hft Hfr].
      apply andb_true_iff in Hfr as [Hfc Hfr].
      apply andb_true_iff in Hfr as [Hfa _].
      specialize (IHt env Hft).
      destruct (eval host test env) as [[v|e] env1]; simpl in IHt; subst env1;
        [|reflexivity].
      destruct (Py.truthy v); [now apply IHc | now apply IHa].
    + specialize (IHh env Hfh).
      destruct (eval host head env) as [[proc|e] env1]; simpl in IHh;
        subst env1; [|reflexivity].
      pose proof (eval_args_define_free host rest IHr env Hfr) as Hargs.
      now destruct (eval_args host rest env) as [[args|e] env2].
Qed.

(** C4, as the code has it. When the value expression of a definition
    raises, the definition raises the same exception and stores nothing: the
    dictionary is the one that the failed evaluation of the value
    expression left, which is the dictionary from before when the value
    expression contains no definition. *)
Theorem define_failure_stores_nothing (host : Host) symbol exp env e env1 :
  eval host exp env = (Raise e, env1) ->
  eval host (VList [VStr "define"; symbol; exp]) env = (Raise e, env1)
  /\ (define_free exp = true -> env1 = env).
Proof.
  intros Hexp. split.
  - now rewrite eval_define_form, Hexp.
  - intros Hfree. pose proof (eval_define_free host exp env Hfree) as Hsnd.
    now rewrite Hexp in Hsnd.
Qed.

Lemma define_failure_stores_nothing_witness :
  eval bare_host (VStr "z") ∅ = (Raise (KeyError "z"), ∅)
  /\ eval bare_host (VList [VStr "define"; VStr "x"; VStr "z"]) ∅
     = (Raise (KeyError "z"), ∅).
Proof.
  split; [reflexivity|].
  apply (define_failure_stores_nothing bare_host (VStr "x") (VStr "z") ∅
           (KeyError "z") ∅).
  reflexivity.
Defined.

(** C4, as stated, fails: in "(define x (begin (define y 1) z))" the value
    expression raises on the unbound [z] after its inner definition has
    bound [y]; the dictionary is not the one from before the attempt. *)
Lemma define_failure_keeps_inner_binding :
  let env := standard_environment ∅ in
  let valueExpr :=
    VList [VStr "begin"; VList [VStr "define"; VStr "y"; VInt 1]; VStr "z"] in
  parse "(define x (begin (define y 1) z))"
  = Ok (VList [VStr "define"; VStr "x"; valueExpr])
  /\ fst (eval bare_host valueExpr env) = Raise (KeyError "z")
  /\ fst (run bare_host "(define x (begin (define y 1) z))" env)
     = Raise (KeyError "z")
  /\ env !! "y" = None
  /\ snd (run bare_host "(define x (begin (define y 1) z))" env) !! "y"
     = Some (VInt 1)
  /\ snd (run bare_host "(define x (begin (define y 1) z))" env) <> env.
Proof.
  cbv zeta.
  assert (snd (run bare_host "(define x (begin (define y 1) z))"
                 (standard_environment ∅)) !! "y" = Some (VInt 1)) as Hy
    by (vm_compute; reflexivity).
  assert (standard_environment ∅ !! "y" = None) as Hn
    by (vm_compute; reflexivity).
  repeat split; try (vm_compute; reflexivity); try assumption.
  intros Heq. rewrite Heq in Hy. congruence.
Qed.

(** ** The two names of one operation *)

(** C5. [standard_environment] binds [append] and [+] to the same object,
    [operator.add]; a call of [append] therefore gives what the call of [+]
    on the same arguments gives, value or exception, and leaves the same
    dictionary. *)
Theorem append_is_add (host : Host) math_vars :
  standard_environment math_vars !! "append" = Some (VProc operator_add)
  /\ standard_environment math_vars !! "+" = Some (VProc operator_add)
  /\ (forall a b,
        apply host (VProc operator_add) [a; b] = Py.add a b)
  /\ (forall args,
        eval host (VList (VStr "append" :: args)) (standard_environment math_vars)
        = eval host (VList (VStr "+" :: args)) (standard_environment math_vars)).
Proof.
  assert (standard_environment math_vars !! "append"
          = Some (VProc operator_add)) as Ha
    by (apply standard_environment_builtin; vm_compute; reflexivity).
  assert (standard_environment math_vars !! "+"
          = Some (VProc operator_add)) as Hp
    by (apply standard_environment_builtin; vm_compute; reflexivity).
  split; [exact Ha|]. split; [exact Hp|]. split; [reflexivity|].
  intros args. rewrite !eval_call by reflexivity.
  now rewrite !eval_symbol, Ha, Hp.
Qed.

(** ** Keywords and bindings *)

(** C9. The evaluator recognises [if] and [define] by the text of the first
    element, before it looks anything up: in every environment a list
    headed by one of them is evaluated by the rule of the special form, in
    which the environment's binding of the keyword has no part.
    [(define if v)] and [(define define v)] do bind the names, and the bare
    symbols then evaluate to the bound value; after "(define if 7)" the
    list "(if 0 1 2)" still gives 2, where calling 7 would raise. *)
Theorem keywords_cannot_be_shadowed (host : Host) :
  (forall env rest,
     eval host (VList (VStr "if" :: rest)) env =
     match rest with
     | [test; conseq; alt] =>
         match eval host test env with
         | (Ok t, env1) =>
             if Py.truthy t then eval host conseq env1
             else eval host alt env1
         | (Raise e, env1) => (Raise e, env1)
         end
     | _ => (Raise ValueError, env)
     end)
  /\ (forall env rest,
        eval host (VList (VStr "define" :: rest)) env =
        match rest with
        | [symbol; exp] =>
            match eval host exp env with
            | (Ok w, env1) => store symbol w env1
            | (Raise e, env1) => (Raise e, env1)
            end
        | _ => (Raise ValueError, env)
        end)
  /\ (forall exp env,
        eval host (VList [VStr "define"; VStr "if"; exp]) env =
        match eval host exp env with
        | (Ok v, env1) => (Ok VNone, <["if" := v]> env1)
        | (Raise e, env1) => (Raise e, env1)
        end)
  /\ (forall exp env,
        eval host (VList [VStr "define"; VStr "define"; exp]) env =
        match eval host exp env with
        | (Ok v, env1) => (Ok VNone, <["define" := v]> env1)
        | (Raise e, env1) => (Raise e, env1)
        end)
  /\ (forall v env,
        eval host (VStr "if") (<["if" := v]> env) = (Ok v, <["if" := v]> env))
  /\ (forall v env,
        eval host (VStr "define") (<["define" := v]> env)
        = (Ok v, <["define" := v]> env))
  /\ (forall env,
        let env1 := snd (run host "(define if 7)" env) in
        env1 = <["if" := VInt 7]> env
        /\ run host "(if 0 1 2)" env1 = (Ok (VInt 2), env1)
        /\ apply host (VInt 7) [VInt 0; VInt 1; VInt 2] = Raise TypeError).
Proof.
  split; [intros; now rewrite eval_list|].
  split; [intros; now rewrite eval_list|].
  split; [intros; apply eval_define_form|].
  split; [intros; apply eval_define_form|].
  split; [intros; now rewrite eval_symbol, lookup_insert_eq|].
  split; [intros; now rewrite eval_symbol, lookup_insert_eq|].
  intros env. cbv zeta. split; [|split]; [| |reflexivity].
  - parse_program. now rewrite eval_define_form.
  - parse_program. now rewrite eval_if_form.
Qed.

(** ** Booleans *)

Lemma atom_kind token :
  (exists z, atom token = VInt z) \/ (exists f, atom token = VFloat f)
  \/ atom token = VStr token.
Proof.
  unfold atom. destruct (Num.int token) as [z|]; [eauto|].
  destruct (Num.float token) as [f|]; eauto.
Qed.





(** ** The atom classifier *)

Lemma all_chars_impl (P Q : ascii -> bool) s :
  (forall c, P c = true -> Q c = true) ->
  all_chars P s = true -> all_chars Q s = true.
Proof.
  intros HPQ. induction s as [|c s IH]; simpl; [trivial|].
  rewrite !andb_true_iff. intros [Hc Hs]. auto.
Qed.

Lemma literal_char_plain c : literal_char c = true -> plain_char c = true.
Proof.
  destruct c as [[] [] [] [] [] [] [] []]; vm_compute; congruence.
Qed.

Lemma digit_run_chars s :
  forall acc n,
    all_chars literal_char (snd (Num.digit_run acc n s)) = true ->
    all_chars literal_char s = true.
Proof.
  induction s as [|c s IH]; intros acc n; simpl; [trivial|].
  destruct (Str.isdigit c) eqn:Hd; [|trivial].
  intros H. apply IH in H. rewrite H.
  unfold literal_char. now rewrite Hd.
Qed.

Lemma split_sign_chars s :
  all_chars literal_char (snd (Num.split_sign s)) = true ->
  all_chars literal_char s = true.
Proof.
  destruct s as [|c r]; simpl; [trivial|].
  destruct (Ascii.eqb c "-") eqn:Em.
  { apply Ascii.eqb_eq in Em; subst c. simpl. now intros ->. }
  destruct (Ascii.eqb c "+") eqn:Ep; [|trivial].
  apply Ascii.eqb_eq in Ep; subst c. simpl. now intros ->.
Qed.

Lemma exponent_part_chars s e :
  Num.exponent_part s = Some e -> all_chars literal_char s = true.
Proof.
  destruct s as [|c s']; [reflexivity|]. unfold Num.exponent_part.
  destruct (Ascii.eqb c "e" || Ascii.eqb c "E") eqn:Ec; [|discriminate].
  destruct (Num.split_sign s') as [neg s''] eqn:Es.
  destruct (Num.digit_run 0 0 s'') as [[x n] rest] eqn:Er.
  destruct rest; [|discriminate]. intros _.
  assert (all_chars literal_char s'' = true) as H
    by (apply (digit_run_chars s'' 0 0); now rewrite Er).
  assert (all_chars literal_char s' = true) as H'
    by (apply split_sign_chars; now rewrite Es).
  simpl. rewrite H', andb_true_r. unfold literal_char.
  apply orb_true_iff in Ec as [-> | ->]; now rewrite ?orb_true_r.
Qed.

Lemma decimal_chars s x :
  Num.decimal s = Some x -> all_chars literal_char s = true.
Proof.
  unfold Num.decimal.
  destruct (Num.digit_run 0 0 s) as [[m1 n1] s1] eqn:E1.
  intros H. apply (digit_run_chars s 0 0). rewrite E1. simpl.
  destruct s1 as [|c t].
  - reflexivity.
  - destruct (Ascii.eqb c ".") eqn:Ec.
    + apply Ascii.eqb_eq in Ec; subst c.
      destruct (Num.digit_run m1 0 t) as [[m2 n2] s2] eqn:E2.
      destruct (0 <? n1 + n2); [|discriminate].
      destruct (Num.exponent_part s2) as [e|] eqn:Ee; [|discriminate].
      simpl. apply (digit_run_chars t m1 0). rewrite E2. simpl.
      eapply exponent_part_chars; eauto.
    + destruct (0 <? n1 + 0); [|discriminate].
      destruct (Num.exponent_part (String c t)) as [e|] eqn:Ee;
        [|discriminate].
      eapply exponent_part_chars; eauto.
Qed.

Lemma lstrip_plain s : plain s = true -> Num.lstrip s = s.
Proof.
  destruct s as [|c s]; [reflexivity|]. unfold plain, plain_char. simpl.
  rewrite !andb_true_iff, negb_true_iff. now intros [[-> _] _].
Qed.

Lemma rstrip_plain s : plain s = true -> Num.rstrip s = s.
Proof.
  induction s as [|c s IH]; [reflexivity|]. unfold plain, plain_char. simpl.
  rewrite !andb_true_iff, negb_true_iff. intros [[Hc _] Hs].
  fold (plain s) in Hs. rewrite (IH Hs), Hc. now destruct s.
Qed.

Lemma strip_plain s : plain s = true -> Num.strip s = s.
Proof.
  intros H. unfold Num.strip. rewrite (lstrip_plain s H). now apply rstrip_plain.
Qed.

Lemma drop_underscores_plain s :
  forall prev, Ascii.eqb prev "_" = false -> plain s = true ->
               Num.drop_underscores prev s = Some s.
Proof.
  induction s as [|c s IH]; intros prev Hprev; simpl.
  - now rewrite Hprev.
  - unfold plain, plain_char. simpl.
    rewrite !andb_true_iff, !negb_true_iff. intros [[_ Hc] Hs].
    rewrite Hc, Hprev. simpl. now rewrite (IH c Hc Hs).
Qed.

(** On a text without white space and underscores, [float()] reads the
    sign and then a special name or a decimal literal. *)
Lemma float_plain s :
  plain s = true ->
  Num.float s =
  let '(neg, r) := Num.split_sign s in Num.float_unsigned neg r.
Proof.
  intros H. unfold Num.float.
  now rewrite (strip_plain s H), (drop_underscores_plain s "000" eq_refl H).
Qed.

Lemma decimal_literal_plain s : decimal_literal s = true -> plain s = true.
Proof.
  unfold decimal_literal. destruct (Num.split_sign s) as [neg r] eqn:Es.
  destruct (Num.decimal r) as [x|] eqn:Ed; [intros _|discriminate].
  apply (all_chars_impl literal_char); [apply literal_char_plain|].
  apply split_sign_chars. rewrite Es. simpl. eapply decimal_chars; eauto.
Qed.

Lemma float_accepts s :
  plain s = true ->
  (Num.float s <> None <-> decimal_literal s = true \/ special_name s = true).
Proof.
  intros H. rewrite (float_plain s H). unfold decimal_literal, special_name.
  destruct (Num.split_sign s) as [neg r]. unfold Num.float_unsigned.
  destruct (String.eqb (Num.lowercase r) "inf"
            || String.eqb (Num.lowercase r) "infinity") eqn:Ei; simpl.
  { split; [now right | discriminate]. }
  destruct (String.eqb (Num.lowercase r) "nan") eqn:En; simpl.
  { split; [now right | discriminate]. }
  destruct (Num.decimal r) as [[m e]|]; simpl.
  - split; [now left | discriminate].
  - split; [congruence | intros [?|?]; discriminate].
Qed.

(** C7, as the code has it. The classifier returns an [int] when [int()]
    reads the text; otherwise a [float] when [float()] reads it, which it
    does for every decimal or exponential literal and, among the texts
    without white space and underscores, for the special names [inf],
    [infinity] and [nan] and for nothing else; otherwise the text itself as
    a symbol. It is a total function. *)
Theorem atom_classifies (token : string) :
  (forall z, Num.int token = Some z -> atom token = VInt z)
  /\ (Num.int token = None ->
      forall f, Num.float token = Some f -> atom token = VFloat f)
  /\ (Num.int token = None -> Num.float token = None ->
      atom token = VStr token)
  /\ (Num.int token = None -> decimal_literal token = true ->
      exists f, atom token = VFloat f)
  /\ (plain token = true ->
      (Num.float token <> None <->
       decimal_literal token = true \/ special_name token = true)).
Proof.
  unfold atom. split; [|split; [|split; [|split]]].
  - now intros z ->.
  - now intros -> f ->.
  - now intros -> ->.
  - intros -> Hlit.
    pose proof (proj2 (float_accepts token (decimal_literal_plain token Hlit))
                  (or_introl Hlit)) as Hf.
    destruct (Num.float token) as [f|]; [eauto | congruence].
  - apply float_accepts.
Qed.

Lemma atom_classifies_witness :
  (Num.int "12" = Some 12 /\ atom "12" = VInt 12)
  /\ (Num.int "1.5e3" = None /\ decimal_literal "1.5e3" = true
      /\ exists f, atom "1.5e3" = VFloat f)
  /\ (Num.int "x" = None /\ Num.float "x" = None /\ atom "x" = VStr "x").
Proof.
  split; [|split].
  - split; [reflexivity|].
    apply (proj1 (atom_classifies "12") 12). reflexivity.
  - split; [reflexivity|]. split; [reflexivity|].
    apply (proj1 (proj2 (proj2 (proj2 (atom_classifies "1.5e3")))));
      reflexivity.
  - split; [reflexivity|]. split; [reflexivity|].
    apply (proj1 (proj2 (proj2 (atom_classifies "x")))); reflexivity.
Defined.

(** C7, as stated, fails: "nan" is not an integer and not a decimal or
    exponential literal, and the classifier returns a [float] for it, not
    the symbol. The same holds of "inf" and of "-Infinity". *)
Lemma atom_special_names_are_numbers :
  Num.int "nan" = None /\ decimal_literal "nan" = false
  /\ atom "nan" = VFloat S754_nan /\ atom "nan" <> VStr "nan"
  /\ decimal_literal "inf" = false
  /\ atom "inf" = VFloat (S754_infinity false)
  /\ decimal_literal "-Infinity" = false
  /\ atom "-Infinity" = VFloat (S754_infinity true).
Proof. repeat split; try reflexivity. discriminate. Qed.

(** ** Integers print and read back *)

Lemma int_digits_numeral d :
  forall acc,
    Num.int_digits acc (NilEmpty.string_of_uint d) = Some (uint_value acc d).
Proof.
  induction d; intros acc; simpl; try reflexivity; apply IHd.
Qed.

Lemma uint_value_acc d :
  forall acc, uint_value (Zpos acc) d = Zpos (Pos.of_uint_acc d acc).
Proof.
  induction d; intros acc; simpl; try reflexivity;
    match goal with
    | |- uint_value ?z _ = Z.pos (Pos.of_uint_acc _ ?p) =>
        replace z with (Zpos p) by lia
    end; apply IHd.
Qed.

Lemma uint_value_of_uint d : uint_value 0 d = Z.of_N (Pos.of_uint d).
Proof.
  induction d; simpl; try reflexivity; try apply IHd;
    match goal with
    | |- uint_value ?z _ = _ => change z with (Zpos (Z.to_pos z))
    end; apply uint_value_acc.
Qed.

Lemma int_unsigned_numeral p :
  Num.int_unsigned (NilEmpty.string_of_uint (Pos.to_uint p)) = Some (Zpos p).
Proof.
  pose proof (DecimalPos.Unsigned.to_uint_nonnil p) as Hnil.
  pose proof (DecimalPos.Unsigned.of_to p) as Hp.
  pose proof (uint_value_of_uint (Pos.to_uint p)) as Hv.
  rewrite Hp in Hv. simpl in Hv. rewrite <- Hv.
  destruct (Pos.to_uint p) as [|d|d|d|d|d|d|d|d|d|d]; [congruence| ..];
    simpl; apply int_digits_numeral.
Qed.

Lemma numeral_chars d :
  all_chars sign_or_digit (NilEmpty.string_of_uint d) = true.
Proof. induction d; simpl; auto. Qed.

Lemma str_int_chars z : all_chars sign_or_digit (Num.str_int z) = true.
Proof.
  destruct z as [|p|p]; unfold Num.str_int, Z.to_int, NilEmpty.string_of_int.
  - reflexivity.
  - apply numeral_chars.
  - cbn [all_chars]. now rewrite numeral_chars.
Qed.

Lemma sign_or_digit_plain c : sign_or_digit c = true -> plain_char c = true.
Proof.
  destruct c as [[] [] [] [] [] [] [] []]; vm_compute; congruence.
Qed.

Lemma sign_or_digit_token c : sign_or_digit c = true -> token_char c = true.
Proof.
  destruct c as [[] [] [] [] [] [] [] []]; vm_compute; congruence.
Qed.

Lemma numeral_nonempty p : NilEmpty.string_of_uint (Pos.to_uint p) <> "".
Proof.
  pose proof (DecimalPos.Unsigned.to_uint_nonnil p).
  destruct (Pos.to_uint p); simpl; congruence.
Qed.

(** [int(str(z)) = z] *)
Lemma int_str_int z : Num.int (Num.str_int z) = Some z.
Proof.
  unfold Num.int.
  rewrite strip_plain
    by (eapply all_chars_impl; [apply sign_or_digit_plain | apply str_int_chars]).
  destruct z as [|p|p]; [reflexivity| |].
  - unfold Num.str_int. simpl.
    pose proof (int_unsigned_numeral p) as Hp.
    pose proof (numeral_chars (Pos.to_uint p)) as Hc.
    destruct (NilEmpty.string_of_uint (Pos.to_uint p)) as [|c s] eqn:E;
      [discriminate|].
    unfold Num.split_sign.
    destruct (Ascii.eqb c "-") eqn:Em.
    { apply Ascii.eqb_eq in Em; subst c. discriminate Hp. }
    destruct (Ascii.eqb c "+") eqn:Ep.
    { apply Ascii.eqb_eq in Ep; subst c. discriminate Hp. }
    now rewrite Hp.
  - unfold Num.str_int. simpl. now rewrite int_unsigned_numeral.
Qed.

Lemma str_int_token z : token_text (Num.str_int z) = true.
Proof.
  unfold token_text. apply andb_true_iff. split.
  - apply negb_true_iff, String.eqb_neq.
    destruct z as [|p|p]; simpl; try discriminate. apply numeral_nonempty.
  - eapply all_chars_impl; [apply sign_or_digit_token | apply str_int_chars].
Qed.

(** ** Printing a flat list and reading it back *)

Lemma lex_from_token t :
  forall word rest,
    all_chars token_char t = true ->
    lex_from word (t +:+ rest) = lex_from (word +:+ t) rest.
Proof.
  induction t as [|c t IH]; intros word rest; simpl.
  - now rewrite append_empty_r.
  - unfold token_char at 1.
    rewrite !andb_true_iff, !negb_true_iff. intros [[[Hs Ho] Hc] Ht].
    rewrite Ho, Hc, Hs. simpl. rewrite (IH _ _ Ht), append_assoc.
    reflexivity.
Qed.

Lemma flush_token t : token_text t = true -> Str.flush t = [t].
Proof. now destruct t. Qed.

Lemma lex_from_join strs :
  Forall (fun t => token_text t = true) strs ->
  forall rest,
    lex_from "" (Str.join " " strs +:+ String ")" rest)
    = strs ++ ")"%string :: lex_from "" rest.
Proof.
  induction 1 as [|x strs Hx Hstrs IH]; intros rest; [reflexivity|].
  pose proof Hx as Hx'. unfold token_text in Hx'.
  apply andb_true_iff in Hx' as [_ Hchars].
  destruct strs as [|y strs].
  - cbn [Str.join]. rewrite (lex_from_token x _ _ Hchars). simpl.
    now rewrite (flush_token x Hx).
  - change (Str.join " " (x :: y :: strs))
      with (x +:+ " " +:+ Str.join " " (y :: strs)).
    rewrite !append_assoc, (lex_from_token x _ _ Hchars).
    change (" " +:+ ?s) with (String " " s). simpl.
    now rewrite (flush_token x Hx), IH.
Qed.

Lemma token_text_not_paren t :
  token_text t = true ->
  String.eqb t "(" = false /\ String.eqb t ")" = false.
Proof.
  intros Ht. split; apply String.eqb_neq; intros ->; discriminate Ht.
Qed.

Lemma read_list_tokens toks :
  Forall (fun t => token_text t = true) toks ->
  forall L rest,
    read_list (toks ++ ")"%string :: rest) L
    = Ok (VList (L ++ map atom toks), rest).
Proof.
  induction 1 as [|t toks Ht _ IH]; intros L rest.
  - simpl. rewrite read_list_cons. simpl. now rewrite app_nil_r.
  - destruct (token_text_not_paren t Ht) as [Ho Hc].
    change ((t :: toks) ++ ")"%string :: rest)
      with (t :: (toks ++ ")"%string :: rest)).
    rewrite read_list_cons, Hc, read_from_tokens_cons, Ho, Hc, IH.
    now rewrite <- app_assoc.
Qed.

(** A list whose elements print as tokens is read back as the list of the
    atoms of these tokens. *)
Lemma parse_schemestr_flat (host : Host) l :
  Forall (fun a => token_text (schemestr host a) = true) l ->
  parse (schemestr host (VList l))
  = Ok (VList (map atom (map (schemestr host) l))).
Proof.
  intros Hl. unfold parse.
  assert (tokenize (schemestr host (VList l))
          = "("%string :: map (schemestr host) l ++ [")"%string]) as ->.
  { rewrite tokenize_lex. cbn [schemestr].
    change ("(" +:+ ?s) with (String "(" s). unfold lex. simpl.
    rewrite lex_from_join; [reflexivity|]. now apply Forall_map. }
  rewrite read_from_tokens_cons. simpl.
  rewrite read_list_tokens; [reflexivity|]. now apply Forall_map.
Qed.

Lemma float_eqb_eq f g : float_eqb f g = true -> f = g.
Proof.
  destruct f as [s|s| |s m e], g as [t|t| |t n x]; simpl; try discriminate;
    try reflexivity.
  - now intros ->%Bool.eqb_prop.
  - now intros ->%Bool.eqb_prop.
  - rewrite !andb_true_iff.
    now intros [[->%Bool.eqb_prop ->%Pos.eqb_eq] ->%Z.eqb_eq].
Qed.

Lemma atom_eqb_eq a b : atom_eqb a b = true -> a = b.
Proof.
  destruct a, b; simpl; try discriminate.
  - now intros ->%Z.eqb_eq.
  - now intros ->%float_eqb_eq.
  - now intros ->%String.eqb_eq.
Qed.

Lemma simple_atom_spec (host : Host) a :
  simple_atom a = true ->
  token_text (schemestr host a) = true /\ atom (schemestr host a) = a
  /\ is_nan a = false.
Proof.
  destruct a as [z|f|b|s|l| |p]; try discriminate; cbn [simple_atom schemestr str].
  - intros _. split; [apply str_int_token|]. split; [|reflexivity].
    unfold atom. now rewrite int_str_int.
  - rewrite !andb_true_iff, negb_true_iff. intros [[Hnan Htok] Hback].
    split; [exact Htok|]. split; [|exact Hnan]. unfold atom.
    destruct (Num.int (Num.str_float f)); [discriminate|].
    destruct (Num.float (Num.str_float f)) as [g|]; [|discriminate].
    now apply float_eqb_eq in Hback as ->.
  - rewrite andb_true_iff. intros [Htok Hsym].
    split; [exact Htok|]. split; [|reflexivity]. unfold atom.
    destruct (Num.int s); [discriminate|].
    now destruct (Num.float s).
Qed.

Lemma simple_symbol s :
  token_text s = true -> Num.int s = None -> Num.float s = None ->
  simple_atom (VStr s) = true.
Proof. intros Ht Hi Hf. cbn [simple_atom]. now rewrite Ht, Hi, Hf. Qed.

(** What the classifier makes of a token is a simple atom, or a float. *)
Lemma atom_simple token :
  token_text token = true ->
  simple_atom (atom token) = true \/ exists f, atom token = VFloat f.
Proof.
  intros Ht. unfold atom.
  destruct (Num.int token) as [z|] eqn:Hi; [now left|].
  destruct (Num.float token) as [f|] eqn:Hf; [right; eauto|].
  left. now apply simple_symbol.
Qed.

Lemma SFcompare_refl f : f <> S754_nan -> SFcompare f f = Some Eq.
Proof.
  destruct f as [s|s| |s m e]; intros Hf; try congruence;
    destruct s; simpl; try reflexivity;
    rewrite Z.compare_refl, Pos.compare_cont_refl; reflexivity.
Qed.

(** Python's [==] holds between a simple atom and itself. *)
Lemma eq_simple_atom (host : Host) a :
  simple_atom a = true -> Py.eq host a a = true.
Proof.
  intros Ha. destruct (simple_atom_spec host a Ha) as (_ & _ & Hnan).
  destruct a as [z|f|b|s|l| |p]; try discriminate Ha; simpl.
  - now rewrite Z.compare_refl.
  - rewrite SFcompare_refl; [reflexivity|]. intros ->. discriminate Hnan.
  - apply String.eqb_refl.
Qed.

Lemma eq_simple_list (host : Host) l :
  forallb simple_atom l = true -> Py.eq host (VList l) (VList l) = true.
Proof.
  intros Hl. cbn [Py.eq Py.as_number].
  induction l as [|a l IH]; [reflexivity|].
  cbn [forallb] in Hl. apply andb_true_iff in Hl as [Ha Hl].
  rewrite (eq_simple_atom host a Ha), orb_true_r. simpl. now apply IH.
Qed.

(** ** Printing a tree and reading it back *)

Lemma lex_from_delimited word rest :
  token_text word = true -> delimited rest = true ->
  lex_from word rest = word :: lex_from "" rest.
Proof.
  intros Hw Hr. destruct rest as [|c rest]; simpl.
  - now rewrite (flush_token word Hw).
  - simpl in Hr. apply negb_true_iff in Hr. unfold token_char in Hr.
    rewrite (flush_token word Hw).
    destruct (Ascii.eqb c "(") eqn:Eo; [reflexivity|].
    destruct (Ascii.eqb c ")") eqn:Ec; [reflexivity|].
    simpl in *. rewrite !andb_true_r in Hr. apply negb_false_iff in Hr.
    now rewrite Hr.
Qed.

Lemma lex_schemestr_atom (host : Host) a :
  simple_atom a = true ->
  forall rest, delimited rest = true ->
    lex_from "" (schemestr host a +:+ rest)
    = [schemestr host a] ++ lex_from "" rest.
Proof.
  intros Ha rest Hrest.
  destruct (simple_atom_spec host a Ha) as (Htok & _ & _).
  pose proof Htok as Hchars. unfold token_text in Hchars.
  apply andb_true_iff in Hchars as [_ Hchars].
  rewrite (lex_from_token _ _ _ Hchars).
  change ("" +:+ schemestr host a) with (schemestr host a).
  now rewrite (lex_from_delimited _ _ Htok Hrest).
Qed.

Lemma lex_schemestr (host : Host) t :
  simple_tree t = true ->
  forall rest, delimited rest = true ->
    lex_from "" (schemestr host t +:+ rest)
    = tokens_of host t ++ lex_from "" rest.
Proof.
  induction t as [z|f|b|s|l IH| |p] using value_ind'; intros Ht rest Hrest;
    try discriminate Ht;
    try (now apply (lex_schemestr_atom host _ Ht)).
  cbn [schemestr tokens_of simple_tree] in *.
  rewrite !append_assoc. change ("(" +:+ ?x) with (String "(" x).
  change (")" +:+ ?x) with (String ")" x). simpl. f_equal.
  rewrite <- app_assoc. simpl. clear Hrest.
  induction IH as [|x l Hx _ IHl]; [reflexivity|].
  cbn [forallb] in Ht. apply andb_true_iff in Ht as [Htx Htl].
  specialize (IHl Htl). destruct l as [|y l].
  - cbn [map Str.join concat]. rewrite app_nil_r.
    now rewrite (Hx Htx (String ")" rest) eq_refl).
  - change (Str.join " " (map (schemestr host) (x :: y :: l)))
      with (schemestr host x +:+ " "
            +:+ Str.join " " (map (schemestr host) (y :: l))).
    rewrite !append_assoc. change (" " +:+ ?s) with (String " " s).
    rewrite (Hx Htx (String " " (Str.join " " (map (schemestr host) (y :: l))
                                   +:+ String ")" rest)) eq_refl).
    change (concat (map (tokens_of host) (x :: y :: l)))
      with (tokens_of host x ++ concat (map (tokens_of host) (y :: l))).
    rewrite <- app_assoc. f_equal. simpl lex_from at 1. exact IHl.
Qed.

Lemma tokens_of_head (host : Host) t :
  simple_tree t = true ->
  exists token more,
    tokens_of host t = token :: more /\ String.eqb token ")" = false.
Proof.
  destruct t as [z|f|b|s|l| |p]; intros Ht; try discriminate Ht.
  - destruct (simple_atom_spec host (VInt z) Ht) as (Htok & _ & _).
    eexists _, _; split; [reflexivity | apply (token_text_not_paren _ Htok)].
  - destruct (simple_atom_spec host (VFloat f) Ht) as (Htok & _ & _).
    eexists _, _; split; [reflexivity | apply (token_text_not_paren _ Htok)].
  - destruct (simple_atom_spec host (VStr s) Ht) as (Htok & _ & _).
    eexists _, _; split; [reflexivity | apply (token_text_not_paren _ Htok)].
  - cbn [tokens_of]. eexists _, _. split; reflexivity.
Qed.

Lemma read_tokens_of_atom (host : Host) a :
  simple_atom a = true ->
  forall rest, read_from_tokens ([schemestr host a] ++ rest) = Ok (a, rest).
Proof.
  intros Ha rest. destruct (simple_atom_spec host a Ha) as (Htok & Hatom & _).
  destruct (token_text_not_paren _ Htok) as [Ho Hc]. cbn [app].
  now rewrite read_from_tokens_cons, Ho, Hc, Hatom.
Qed.

Lemma read_tokens_of (host : Host) t :
  simple_tree t = true ->
  forall rest, read_from_tokens (tokens_of host t ++ rest) = Ok (t, rest).
Proof.
  induction t as [z|f|b|s|l IH| |p] using value_ind'; intros Ht rest;
    try discriminate Ht;
    try (now apply (read_tokens_of_atom host _ Ht)).
  cbn [tokens_of simple_tree] in *.
  change (("("%string :: ?a) ++ ?b) with ("("%string :: (a ++ b)).
  rewrite read_from_tokens_cons. simpl String.eqb. cbv iota.
  rewrite <- app_assoc. simpl app at 2.
  enough (forall L,
            read_list (concat (map (tokens_of host) l) ++ ")"%string :: rest) L
            = Ok (VList (L ++ l), rest)) as -> by reflexivity.
  induction IH as [|x l Hx _ IHl]; intros L.
  - simpl. rewrite read_list_cons. simpl. now rewrite app_nil_r.
  - cbn [forallb] in Ht. apply andb_true_iff in Ht as [Htx Htl].
    cbn [map concat]. rewrite <- app_assoc.
    destruct (tokens_of_head host x Htx) as (token & more & Hhead & Hclose).
    pose proof (Hx Htx (concat (map (tokens_of host) l)
                          ++ ")"%string :: rest)) as Hread.
    rewrite Hhead in *. cbn [app] in *.
    rewrite read_list_cons, Hclose, Hread, (IHl Htl).
    now rewrite <- app_assoc.
Qed.

(** A simple tree is read back from its print. *)
Lemma parse_schemestr_tree (host : Host) t :
  simple_tree t = true -> parse (schemestr host t) = Ok t.
Proof.
  intros Ht. unfold parse. rewrite tokenize_lex. unfold lex.
  rewrite <- (append_empty_r (schemestr host t)).
  rewrite (lex_schemestr host t Ht "" eq_refl). simpl lex_from.
  now rewrite (read_tokens_of host t Ht []).
Qed.





(** * Further properties of the program *)

(** ** Tokenizer *)

Lemma token_word word :
  all_chars token_char word = true -> Forall (fun t => is_token t = true) (Str.flush word).
Proof.
  destruct word as [|c w]; intros Hw; [constructor|].
  constructor; [|constructor]. unfold is_token, token_text.
  rewrite Hw. simpl. now rewrite orb_true_r.
Qed.

Lemma all_chars_snoc P word c :
  all_chars P word = true -> P c = true ->
  all_chars P (word +:+ String c EmptyString) = true.
Proof.
  induction word as [|d w IH]; simpl; intros Hw Hc.
  - now rewrite Hc.
  - apply andb_true_iff in Hw as [Hd Hw]. now rewrite Hd, IH.
Qed.

Lemma lex_from_tokens s :
  forall word,
    all_chars token_char word = true ->
    Forall (fun t => is_token t = true) (lex_from word s).
Proof.
  induction s as [|c s IH]; intros word Hw; simpl.
  - now apply token_word.
  - destruct (Ascii.eqb c "(") eqn:Eo; simpl.
    { apply Ascii.eqb_eq in Eo; subst c. apply Forall_app. split.
      - now apply token_word.
      - constructor; [reflexivity | now apply IH]. }
    destruct (Ascii.eqb c ")") eqn:Ec; simpl.
    { apply Ascii.eqb_eq in Ec; subst c. apply Forall_app. split.
      - now apply token_word.
      - constructor; [reflexivity | now apply IH]. }
    destruct (Str.isspace c) eqn:Es.
    + apply Forall_app. split; [now apply token_word | now apply IH].
    + apply IH. apply all_chars_snoc; [exact Hw|].
      unfold token_char. now rewrite Es, Eo, Ec.
Qed.

(** X1. Every token that [tokenize] returns is "(", ")" or a non-empty
    text without white space and parentheses. *)
Theorem tokenize_tokens chars :
  Forall (fun t => is_token t = true) (tokenize chars).
Proof. rewrite tokenize_lex. now apply lex_from_tokens. Qed.

Lemma lex_from_app a :
  forall word rest,
    delimited rest = true ->
    lex_from word (a +:+ rest) = lex_from word a ++ lex_from "" rest.
Proof.
  induction a as [|c a IH]; intros word rest Hrest.
  - simpl. destruct rest as [|c rest]; simpl.
    + now rewrite app_nil_r.
    + simpl in Hrest. apply negb_true_iff in Hrest. unfold token_char in Hrest.
      destruct (Ascii.eqb c "(") eqn:Eo; [reflexivity|].
      destruct (Ascii.eqb c ")") eqn:Ec; [reflexivity|].
      simpl in *. rewrite !andb_true_r in Hrest.
      apply negb_false_iff in Hrest. now rewrite Hrest.
  - simpl. destruct (Ascii.eqb c "(" || Ascii.eqb c ")").
    + rewrite (IH _ _ Hrest), <- app_assoc. reflexivity.
    + destruct (Str.isspace c).
      * rewrite (IH _ _ Hrest), <- app_assoc. reflexivity.
      * apply IH, Hrest.
Qed.

(** X2. Tokenizing is local: the tokens of a text cut at a space or at a
    parenthesis are the tokens of the part before, the parenthesis if that
    is where the text was cut, and the tokens of the part after. *)
Theorem tokenize_cut (a b : string) :
  tokenize (a +:+ " " +:+ b) = tokenize a ++ tokenize b
  /\ tokenize (a +:+ "(" +:+ b) = tokenize a ++ "("%string :: tokenize b
  /\ tokenize (a +:+ ")" +:+ b) = tokenize a ++ ")"%string :: tokenize b.
Proof.
  rewrite !tokenize_lex. unfold lex.
  change (" " +:+ b) with (String " " b).
  change ("(" +:+ b) with (String "(" b).
  change (")" +:+ b) with (String ")" b).
  rewrite !lex_from_app by reflexivity. repeat split.
Qed.

Lemma lex_token t : is_token t = true -> lex_from "" t = [t].
Proof.
  unfold is_token. rewrite !orb_true_iff.
  intros [[Ho | Hc] | Ht].
  - apply String.eqb_eq in Ho. now subst t.
  - apply String.eqb_eq in Hc. now subst t.
  - pose proof Ht as Hchars. unfold token_text in Hchars.
    apply andb_true_iff in Hchars as [_ Hchars].
    rewrite <- (append_empty_r t) at 1.
    rewrite (lex_from_token t "" "" Hchars). simpl.
    now apply flush_token.
Qed.

Lemma lex_join tokens :
  Forall (fun t => is_token t = true) tokens ->
  lex_from "" (Str.join " " tokens) = tokens.
Proof.
  induction 1 as [|t tokens Ht Htokens IH]; [reflexivity|].
  destruct tokens as [|u tokens].
  - now apply lex_token.
  - change (Str.join " " (t :: u :: tokens))
      with (t +:+ String " " (Str.join " " (u :: tokens))).
    rewrite lex_from_app by reflexivity.
    rewrite (lex_token t Ht).
    change (lex_from "" (String " " ?x)) with (lex_from "" x).
    now rewrite IH.
Qed.

(** X3. The tokens of a text, joined by single spaces, are tokenized to
    themselves: [tokenize] is a retraction of joining, and [parse] gives
    the same on the text and on its tokens joined by spaces, whatever the
    white space of the text was. *)
Theorem tokenize_join chars :
  tokenize (Str.join " " (tokenize chars)) = tokenize chars
  /\ parse (Str.join " " (tokenize chars)) = parse chars.
Proof.
  assert (tokenize (Str.join " " (tokenize chars)) = tokenize chars) as H.
  { rewrite (tokenize_lex (Str.join " " (tokenize chars))). unfold lex.
    apply lex_join. rewrite tokenize_lex. now apply lex_from_tokens. }
  split; [exact H|]. unfold parse. now rewrite H.
Qed.

(** ** Reader *)







Lemma read_prefix (n : nat) :
  forall tokens, (length tokens <= n)%nat ->
    (forall x rest,
       read_from_tokens tokens = Ok (x, rest) ->
       exists used,
         tokens = used ++ rest /\ used <> []
         /\ forall rest', read_from_tokens (used ++ rest') = Ok (x, rest'))
    /\ (forall L x rest,
          read_list tokens L = Ok (x, rest) ->
          exists used items,
            tokens = used ++ rest /\ x = VList (L ++ items)
            /\ forall rest' L',
                 read_list (used ++ rest') L' = Ok (VList (L' ++ items), rest')).
Proof.
  induction n as [|n IH]; intros tokens Hn.
  - destruct tokens; [|simpl in Hn; lia].
    split; [discriminate | intros L x rest; rewrite read_list_nil; discriminate].
  - destruct tokens as [|token ts];
      [split; [discriminate
              | intros L x rest; rewrite read_list_nil; discriminate]|].
    simpl in Hn.
    assert (forall x rest,
              read_from_tokens (token :: ts) = Ok (x, rest) ->
              exists used,
                ts = used ++ rest
                /\ forall rest',
                     read_from_tokens (token :: used ++ rest') = Ok (x, rest'))
      as Hread.
    { intros x rest. rewrite read_from_tokens_cons.
      destruct (String.eqb token "(") eqn:Eo.
      - intros Hl.
        destruct (proj2 (IH ts ltac:(lia)) [] x rest Hl)
          as (used & items & -> & -> & Hany).
        exists used. split; [reflexivity|]. intros rest'.
        now rewrite read_from_tokens_cons, Eo, Hany.
      - destruct (String.eqb token ")") eqn:Ec; [discriminate|].
        intros [= <- <-]. exists []. split; [reflexivity|]. intros rest'.
        now rewrite read_from_tokens_cons, Eo, Ec. }
    split.
    + intros x rest Hx. destruct (Hread x rest Hx) as (used & -> & Hany).
      exists (token :: used). split; [reflexivity|]. split; [discriminate|].
      exact Hany.
    + intros L x rest. rewrite read_list_cons.
      destruct (String.eqb token ")") eqn:Ec.
      { intros [= <- <-]. exists [token], []. split; [reflexivity|].
        split; [now rewrite app_nil_r|]. intros rest' L'.
        cbn [app]. now rewrite read_list_cons, Ec, app_nil_r. }
      pose proof (read_from_tokens_consumes (token :: ts)) as Hlen.
      destruct (read_from_tokens (token :: ts)) as [[y tokens']|e] eqn:E;
        [|discriminate].
      simpl in Hlen. intros Hl.
      destruct (Hread y tokens' eq_refl) as (used1 & Hts & Hany1).
      destruct (proj2 (IH tokens' ltac:(lia)) (L ++ [y]) x rest Hl)
        as (used2 & items & -> & -> & Hany2).
      exists (token :: used1 ++ used2), (y :: items).
      split; [cbn [app]; now rewrite Hts, <- app_assoc|].
      split; [now rewrite <- app_assoc|]. intros rest' L'.
      cbn [app]. rewrite read_list_cons, Ec, <- app_assoc, Hany1, Hany2.
      now rewrite <- app_assoc.
Qed.

(** X6. [read_from_tokens] reads one expression off the front and leaves
    the rest alone: the tokens it consumed, followed by any other tokens,
    give the same expression and leave those other tokens. So text that
    follows the first expression after a space has no part in what [parse]
    returns. *)
Theorem read_from_tokens_prefix tokens x rest :
  read_from_tokens tokens = Ok (x, rest) ->
  (exists used,
     tokens = used ++ rest /\ used <> []
     /\ forall rest', read_from_tokens (used ++ rest') = Ok (x, rest'))
  /\ (forall program more,
        tokenize program = tokens ->
        parse (program +:+ " " +:+ more) = Ok x).
Proof.
  intros Hx.
  destruct (proj1 (read_prefix _ tokens (le_n _)) x rest Hx)
    as (used & Htokens & Hused & Hany).
  split; [eauto|]. intros program more Hp. unfold parse.
  change (" " +:+ more) with (String " " more).
  rewrite !tokenize_lex. unfold lex. rewrite lex_from_app by reflexivity.
  fold (lex program). rewrite <- tokenize_lex, Hp, Htokens, <- app_assoc.
  now rewrite Hany.
Qed.

Lemma read_from_tokens_prefix_witness :
  read_from_tokens ["("; "+"; "1"; "2"; ")"; ")"; "junk"]%string
  = Ok (VList [VStr "+"; VInt 1; VInt 2], [")"; "junk"]%string)
  /\ parse "(+ 1 2)) junk" = Ok (VList [VStr "+"; VInt 1; VInt 2])
  /\ parse "(+ 1 2)) junk (and more" = Ok (VList [VStr "+"; VInt 1; VInt 2]).
Proof.
  split; [reflexivity|]. split; [reflexivity|].
  apply (proj2 (read_from_tokens_prefix
                  ["("; "+"; "1"; "2"; ")"; ")"; "junk"]%string
                  (VList [VStr "+"; VInt 1; VInt 2]) [")"; "junk"]%string
                  eq_refl) "(+ 1 2)) junk" "(and more").
  reflexivity.
Defined.

(** ** Atom classifier *)

Lemma lstrip_chars P s :
  (forall c, Num.isspace c = true -> P c = true) ->
  all_chars P (Num.lstrip s) = true -> all_chars P s = true.
Proof.
  intros Hsp. induction s as [|c s IH]; simpl; [trivial|].
  destruct (Num.isspace c) eqn:Ec; [|trivial].
  intros H. now rewrite (Hsp c Ec), IH.
Qed.

Lemma rstrip_chars P s :
  (forall c, Num.isspace c = true -> P c = true) ->
  all_chars P (Num.rstrip s) = true -> all_chars P s = true.
Proof.
  intros Hsp. induction s as [|c s IH]; simpl; [trivial|].
  destruct (Num.rstrip s) as [|d r] eqn:Er.
  - destruct (Num.isspace c) eqn:Ec; simpl.
    + intros _. now rewrite (Hsp c Ec), IH.
    + rewrite andb_true_r. intros ->. now rewrite IH.
  - simpl. rewrite !andb_true_iff. intros [-> H]. split; [reflexivity|].
    apply IH. simpl. now apply andb_true_iff.
Qed.

Lemma strip_chars P s :
  (forall c, Num.isspace c = true -> P c = true) ->
  all_chars P (Num.strip s) = true -> all_chars P s = true.
Proof.
  intros Hsp H. apply (lstrip_chars P s Hsp), (rstrip_chars P _ Hsp), H.
Qed.

Lemma split_sign_all P s :
  P "+"%char = true -> P "-"%char = true ->
  all_chars P (snd (Num.split_sign s)) = true -> all_chars P s = true.
Proof.
  intros Hp Hm. destruct s as [|c r]; simpl; [trivial|].
  destruct (Ascii.eqb c "-") eqn:Em.
  { apply Ascii.eqb_eq in Em; subst c. simpl. now rewrite Hm. }
  destruct (Ascii.eqb c "+") eqn:Ep; [|trivial].
  apply Ascii.eqb_eq in Ep; subst c. simpl. now rewrite Hp.
Qed.

Lemma int_digits_chars s :
  forall acc z, Num.int_digits acc s = Some z ->
                all_chars numeric_char s = true.
Proof.
  assert (forall c, Str.isdigit c = true -> numeric_char c = true) as Hd.
  { intros c Hc. unfold numeric_char, literal_char. now rewrite Hc. }
  refine ((fix go (n : nat) : forall s, (String.length s <= n)%nat ->
             forall acc z, Num.int_digits acc s = Some z ->
                           all_chars numeric_char s = true := _)
            (String.length s) s (le_n _)).
  destruct n as [|n]; intros [|c s'] Hn acc z; simpl in *; try reflexivity;
    try lia.
  destruct (Str.isdigit c) eqn:Ec.
  - intros H. rewrite (Hd c Ec). apply (go n s' ltac:(lia) _ _ H).
  - destruct (Ascii.eqb c "_") eqn:Eu; [|discriminate].
    apply Ascii.eqb_eq in Eu; subst c.
    destruct s' as [|d s'']; [discriminate|].
    destruct (Str.isdigit d) eqn:Ed; [|discriminate].
    intros H. simpl in *. rewrite (Hd d Ed).
    destruct n as [|n]; [lia|]. apply (go n s'' ltac:(lia) _ _ H).
Qed.

Lemma int_chars s z : Num.int s = Some z -> all_chars numeral_char s = true.
Proof.
  unfold Num.int. intros H.
  apply strip_chars; [unfold numeral_char; now intros c -> |].
  apply (all_chars_impl numeric_char);
    [unfold numeral_char; intros c ->; apply orb_true_r|].
  apply split_sign_all; try reflexivity.
  destruct (Num.split_sign (Num.strip s)) as [neg r]. simpl.
  unfold Num.int_unsigned in H. destruct r as [|c r]; [reflexivity|].
  destruct (Str.isdigit c) eqn:Ec; [|discriminate].
  destruct (Num.int_digits (Num.digit c) r) as [y|] eqn:Ey; [|discriminate].
  simpl. rewrite (int_digits_chars r _ _ Ey), andb_true_r.
  unfold numeric_char, literal_char. now rewrite Ec.
Qed.

Lemma drop_underscores_chars P s :
  P "_"%char = true ->
  forall prev t, Num.drop_underscores prev s = Some t ->
                 all_chars P t = true -> all_chars P s = true.
Proof.
  intros Hu. induction s as [|c s IH]; intros prev t; simpl; [trivial|].
  destruct (Ascii.eqb c "_") eqn:Ec.
  - apply Ascii.eqb_eq in Ec; subst c. rewrite Hu.
    destruct (Str.isdigit prev); [|discriminate]. apply IH.
  - destruct (Ascii.eqb prev "_" && negb (Str.isdigit c)); [discriminate|].
    destruct (Num.drop_underscores c s) as [t'|] eqn:Et; [|discriminate].
    intros [= <-]. simpl. rewrite !andb_true_iff. intros [-> Ht'].
    split; [reflexivity|]. eapply IH; eauto.
Qed.

Lemma lowercase_chars P s :
  all_chars P (Num.lowercase s) = all_chars (fun c => P (Num.lower c)) s.
Proof. induction s as [|c s IH]; simpl; [reflexivity | now rewrite IH]. Qed.

Lemma float_unsigned_chars neg r f :
  Num.float_unsigned neg r = Some f -> all_chars numeric_char r = true.
Proof.
  unfold Num.float_unsigned.
  assert (forall lit,
            all_chars special_letter lit = true ->
            String.eqb (Num.lowercase r) lit = true ->
            all_chars numeric_char r = true) as Hspecial.
  { intros lit Hlit Heq. apply String.eqb_eq in Heq.
    rewrite <- Heq, lowercase_chars in Hlit.
    eapply all_chars_impl; [|exact Hlit].
    intros c Hc. unfold numeric_char. rewrite Hc. apply orb_true_r. }
  destruct (String.eqb (Num.lowercase r) "inf") eqn:E1;
    [intros _; now apply (Hspecial "inf"%string)|].
  destruct (String.eqb (Num.lowercase r) "infinity") eqn:E2;
    [intros _; now apply (Hspecial "infinity"%string)|].
  destruct (String.eqb (Num.lowercase r) "nan") eqn:E3;
    [intros _; now apply (Hspecial "nan"%string)|].
  simpl. destruct (Num.decimal r) as [x|] eqn:Ed; [intros _|discriminate].
  apply (all_chars_impl literal_char); [|eapply decimal_chars; eauto].
  intros c Hc. unfold numeric_char. now rewrite Hc.
Qed.

Lemma float_chars s f :
  Num.float s = Some f -> all_chars numeral_char s = true.
Proof.
  unfold Num.float. intros H.
  apply strip_chars; [unfold numeral_char; now intros c -> |].
  apply (all_chars_impl numeric_char);
    [unfold numeral_char; intros c ->; apply orb_true_r|].
  destruct (Num.drop_underscores "000" (Num.strip s)) as [t|] eqn:Et;
    [|discriminate].
  apply (drop_underscores_chars numeric_char _ eq_refl _ _ Et).
  apply split_sign_all; try reflexivity.
  destruct (Num.split_sign t) as [neg r]. simpl.
  eapply float_unsigned_chars; eauto.
Qed.

(** X8. A text that holds a character which is not white space and not one
    of the characters of numerals (digits, ".", "e", "E", "+", "-", "_" and
    the letters of inf, infinity and nan in either case) is classified as
    the symbol of that text: names such as [x], [car] or [define] are never
    taken for numbers. *)
Theorem atom_symbol token :
  all_chars numeral_char token = false -> atom token = VStr token.
Proof.
  intros H. unfold atom.
  destruct (Num.int token) as [z|] eqn:Hi.
  { apply int_chars in Hi. congruence. }
  destruct (Num.float token) as [f|] eqn:Hf; [|reflexivity].
  apply float_chars in Hf. congruence.
Qed.

Lemma atom_symbol_witness :
  all_chars numeral_char "define" = false
  /\ atom "define" = VStr "define"
  /\ all_chars numeral_char "1+" = true
  /\ atom "1+" = VStr "1+".
Proof.
  split; [reflexivity|].
  split; [apply (atom_symbol "define"); reflexivity|].
  split; reflexivity.
Defined.

(** ** Evaluator *)

(** X9. The arguments of a call are evaluated from left to right, each in
    the dictionary the one before left: evaluating a sequence of
    expressions is evaluating a first part and then, if none of it raised,
    the second part in the dictionary reached; an exception ends the
    evaluation there, with the dictionary as it then is. *)
Theorem eval_args_app (host : Host) xs ys env :
  eval_args host (xs ++ ys) env =
  match eval_args host xs env with
  | (Ok vs, env1) =>
      match eval_args host ys env1 with
      | (Ok ws, env2) => (Ok (vs ++ ws), env2)
      | (Raise e, env2) => (Raise e, env2)
      end
  | (Raise e, env1) => (Raise e, env1)
  end.
Proof.
  revert env. induction xs as [|x xs IH]; intros env.
  - simpl. now destruct (eval_args host ys env) as [[ws|e] env2].
  - cbn [app eval_args].
    destruct (eval host x env) as [[v|e] env']; [|reflexivity].
    rewrite IH. destruct (eval_args host xs env') as [[vs|e] env1];
      [|reflexivity].
    now destruct (eval_args host ys env1) as [[ws|e] env2].
Qed.

Lemma store_keeps symbol v env key :
  is_Some (env !! key) -> is_Some (snd (store symbol v env) !! key).
Proof.
  intros Hk. destruct symbol; simpl; try exact Hk.
  destruct (decide (s = key)) as [->|Hne].
  - rewrite lookup_insert_eq. eauto.
  - now rewrite lookup_insert_ne.
Qed.

Lemma eval_args_keeps (host : Host) xs key :
  Forall (fun x => forall env,
            is_Some (env !! key) ->
            is_Some (snd (eval host x env) !! key)) xs ->
  forall env, is_Some (env !! key) ->
              is_Some (snd (eval_args host xs env) !! key).
Proof.
  induction 1 as [|x xs Hx _ IH]; intros env Hk; [exact Hk|].
  cbn [eval_args]. specialize (Hx env Hk).
  destruct (eval host x env) as [[v|e] env']; simpl in Hx; [|exact Hx].
  specialize (IH env' Hx).
  now destruct (eval_args host xs env') as [[vs|e] env''].
Qed.

(** X10. Evaluation never removes a name from the dictionary: a name that
    is bound before an expression is evaluated is bound afterwards, whether
    the evaluation returns or raises. *)
Theorem eval_keeps_names (host : Host) x env key :
  is_Some (env !! key) -> is_Some (snd (eval host x env) !! key).
Proof.
  revert env.
  induction x as [z|f|b|s|l IH| |p] using value_ind'; intros env Hk;
    try exact Hk.
  - rewrite eval_symbol. now destruct (env !! s).
  - destruct l as [|head rest]; [exact Hk|].
    apply Forall_cons in IH as [IHh IHr]. rewrite eval_list.
    destruct (is_keyword head "if").
    { destruct rest as [|test [|conseq [|alt [|]]]]; try exact Hk.
      apply Forall_cons in IHr as [IHt IHr].
      apply Forall_cons in IHr as [IHc IHr].
      apply Forall_cons in IHr as [IHa _].
      specialize (IHt env Hk).
      destruct (eval host test env) as [[v|e] env1]; simpl in IHt;
        [|exact IHt].
      destruct (Py.truthy v); [now apply IHc | now apply IHa]. }
    destruct (is_keyword head "define").
    { destruct rest as [|symbol [|exp [|]]]; try exact Hk.
      apply Forall_cons in IHr as [_ IHr].
      apply Forall_cons in IHr as [IHe _].
      specialize (IHe env Hk).
      destruct (eval host exp env) as [[v|e] env1]; simpl in IHe;
        [|exact IHe].
      now apply store_keeps. }
    specialize (IHh env Hk).
    destruct (eval host head env) as [[proc|e] env1]; simpl in IHh;
      [|exact IHh].
    pose proof (eval_args_keeps host rest key IHr env1 IHh) as Hargs.
    now destruct (eval_args host rest env1) as [[args|e] env2].
Qed.

Lemma eval_keeps_names_witness :
  is_Some ((standard_environment ∅ : gmap string value) !! "car")
  /\ is_Some (snd (run bare_host "(begin (define car 1) (define cdr 2) oops)"
                     (standard_environment ∅)) !! "car").
Proof.
  assert (is_Some ((standard_environment ∅ : gmap string value) !! "car"))
    as Hcar by (vm_compute; eauto).
  split; [exact Hcar|].
  apply (eval_keeps_names bare_host
           (VList [VStr "begin"; VList [VStr "define"; VStr "car"; VInt 1];
                   VList [VStr "define"; VStr "cdr"; VInt 2]; VStr "oops"])
           (standard_environment ∅) "car" Hcar).
Defined.

(** X11. When the first element of a call evaluates to an object that is
    not a procedure, the arguments are evaluated all the same, and only
    then is TypeError raised: an exception of an argument comes first, and
    the definitions the arguments made stay. *)
Theorem eval_call_of_non_procedure (host : Host) head rest env v env1 :
  is_keyword head "if" = false -> is_keyword head "define" = false ->
  eval host head env = (Ok v, env1) -> Py.callable v = false ->
  eval host (VList (head :: rest)) env =
  match eval_args host rest env1 with
  | (Ok _, env2) => (Raise TypeError, env2)
  | (Raise e, env2) => (Raise e, env2)
  end.
Proof.
  intros Hi Hd Hhead Hv. rewrite (eval_call host head rest env Hi Hd), Hhead.
  destruct (eval_args host rest env1) as [[args|e] env2]; [|reflexivity].
  now destruct v.
Qed.

Lemma eval_call_of_non_procedure_witness :
  eval bare_host (VInt 1) ∅ = (Ok (VInt 1), ∅)
  /\ Py.callable (VInt 1) = false
  /\ eval bare_host (VList [VInt 1; VList [VStr "define"; VStr "x"; VInt 2]]) ∅
     = (Raise TypeError, <["x" := VInt 2]> ∅)
  /\ eval bare_host (VList [VInt 1; VStr "y"]) ∅ = (Raise (KeyError "y"), ∅).
Proof.
  split; [reflexivity|]. split; [reflexivity|]. split.
  - refine (eq_trans
              (eval_call_of_non_procedure bare_host (VInt 1)
                 [VList [VStr "define"; VStr "x"; VInt 2]] ∅ (VInt 1) ∅
                 eq_refl eq_refl eq_refl eq_refl) _).
    reflexivity.
  - refine (eq_trans
              (eval_call_of_non_procedure bare_host (VInt 1) [VStr "y"] ∅
                 (VInt 1) ∅ eq_refl eq_refl eq_refl eq_refl) _).
    reflexivity.
Defined.

(** X12. A list headed by [if] that does not have three more elements, or
    one headed by [define] that does not have two more, raises ValueError
    before anything is evaluated; and a definition whose name position
    holds a list, as in [(define (f x) body)], evaluates the value
    expression and then raises TypeError, binding nothing. *)
Theorem malformed_special_forms (host : Host) :
  (forall rest env,
     length rest <> 3%nat ->
     eval host (VList (VStr "if" :: rest)) env = (Raise ValueError, env))
  /\ (forall rest env,
        length rest <> 2%nat ->
        eval host (VList (VStr "define" :: rest)) env = (Raise ValueError, env))
  /\ (forall l exp env,
        eval host (VList [VStr "define"; VList l; exp]) env =
        match eval host exp env with
        | (Ok _, env1) => (Raise TypeError, env1)
        | (Raise e, env1) => (Raise e, env1)
        end).
Proof.
  split; [|split].
  - intros rest env Hlen. rewrite eval_list. simpl.
    destruct rest as [|a [|b [|c [|d rest]]]]; simpl in Hlen;
      try reflexivity; lia.
  - intros rest env Hlen. rewrite eval_list. simpl.
    destruct rest as [|a [|b [|c rest]]]; simpl in Hlen;
      try reflexivity; lia.
  - intros l exp env. rewrite eval_define_form.
    now destruct (eval host exp env) as [[v|e] env1].
Qed.

Lemma malformed_special_forms_witness :
  parse "(if (> 1 0) 1)" = Ok (VList [VStr "if"; VList [VStr ">"; VInt 1; VInt 0]; VInt 1])
  /\ eval bare_host
       (VList [VStr "if"; VList [VStr ">"; VInt 1; VInt 0]; VInt 1])
       (standard_environment ∅)
     = (Raise ValueError, standard_environment ∅)
  /\ eval bare_host (VList [VStr "define"; VStr "x"]) ∅ = (Raise ValueError, ∅).
Proof.
  split; [reflexivity|]. split.
  - apply (proj1 (malformed_special_forms bare_host)
             [VList [VStr ">"; VInt 1; VInt 0]; VInt 1]). simpl. lia.
  - apply (proj1 (proj2 (malformed_special_forms bare_host)) [VStr "x"]).
    simpl. lia.
Defined.

(** X13. A definition whose value expression holds no definition changes
    the dictionary at its name and nowhere else: afterwards the name is
    bound to the value and every other name is bound as before the
    definition, if it was bound at all. *)
Theorem define_changes_one_name (host : Host) name exp env v env1 :
  eval host exp env = (Ok v, env1) -> define_free exp = true ->
  let env' := snd (eval host (VList [VStr "define"; VStr name; exp]) env) in
  fst (eval host (VList [VStr "define"; VStr name; exp]) env) = Ok VNone
  /\ env' !! name = Some v
  /\ forall other, other <> name -> env' !! other = env !! other.
Proof.
  intros Hexp Hfree. cbv zeta.
  pose proof (eval_define_free host exp env Hfree) as Henv.
  rewrite Hexp in Henv. simpl in Henv. subst env1.
  rewrite eval_define_form, Hexp. simpl.
  split; [reflexivity|]. split; [apply lookup_insert_eq|].
  intros other Hne. now apply lookup_insert_ne.
Qed.

Lemma define_changes_one_name_witness :
  eval bare_host (VList [VStr "+"; VInt 1; VInt 2]) (standard_environment ∅)
  = (Ok (VInt 3), standard_environment ∅)
  /\ define_free (VList [VStr "+"; VInt 1; VInt 2]) = true
  /\ snd (eval bare_host
            (VList [VStr "define"; VStr "+"; VList [VStr "+"; VInt 1; VInt 2]])
            (standard_environment ∅)) !! "+" = Some (VInt 3).
Proof.
  assert (eval bare_host (VList [VStr "+"; VInt 1; VInt 2])
            (standard_environment ∅)
          = (Ok (VInt 3), standard_environment ∅)) as Hexp.
  { rewrite eval_call by reflexivity. lookup_builtin. reflexivity. }
  split; [exact Hexp|]. split; [reflexivity|].
  apply (define_changes_one_name bare_host "+"
           (VList [VStr "+"; VInt 1; VInt 2]) (standard_environment ∅)
           (VInt 3) (standard_environment ∅) Hexp eq_refl).
Defined.

(** ** From text to value *)



(** ** Programs without definitions *)

Lemma define_free_snoc L x :
  define_free (VList L) = true -> define_free x = true ->
  is_keyword x "define" = false -> define_free (VList (L ++ [x])) = true.
Proof.
  intros HL Hx Hk. cbn [define_free] in *.
  apply andb_true_iff in HL as [Hhead Hall].
  apply andb_true_iff. split.
  - destruct L as [|head L']; simpl; [now rewrite Hk | exact Hhead].
  - rewrite forallb_app, Hall. simpl. now rewrite Hx.
Qed.

Lemma atom_not_keyword token keyword :
  String.eqb keyword token = false ->
  define_free (atom token) = true /\ is_keyword (atom token) keyword = false.
Proof.
  intros Hne.
  destruct (atom_kind token) as [[z ->] | [[f ->] | ->]];
    try (split; reflexivity).
  split; [reflexivity|]. simpl. now rewrite String.eqb_sym.
Qed.

(** What is read from tokens among which [define] is not, holds no
    definition. *)
Lemma read_define_free (n : nat) :
  forall tokens, (length tokens <= n)%nat ->
    mentions "define" tokens = false ->
    (forall x rest,
       read_from_tokens tokens = Ok (x, rest) ->
       define_free x = true /\ is_keyword x "define" = false
       /\ mentions "define" rest = false)
    /\ (forall L x rest,
          define_free (VList L) = true ->
          read_list tokens L = Ok (x, rest) ->
          define_free x = true /\ is_keyword x "define" = false
          /\ mentions "define" rest = false).
Proof.
  induction n as [|n IH]; intros tokens Hn Hm.
  - destruct tokens; [|simpl in Hn; lia].
    split; [intros x rest | intros L x rest _]; discriminate.
  - destruct tokens as [|token rest0];
      [split; [intros x rest | intros L x rest _]; discriminate|].
    simpl in Hn. cbn [mentions existsb] in Hm.
    apply orb_false_iff in Hm as [Ht Hrest]. fold (mentions "define" rest0) in Hrest.
    assert (forall x rest,
              read_from_tokens (token :: rest0) = Ok (x, rest) ->
              define_free x = true /\ is_keyword x "define" = false
              /\ mentions "define" rest = false) as Hread.
    { intros x rest. rewrite read_from_tokens_cons.
      destruct (String.eqb token "(").
      - apply (proj2 (IH rest0 ltac:(lia) Hrest) []). reflexivity.
      - destruct (String.eqb token ")"); [discriminate|].
        intros [= <- <-].
        destruct (atom_not_keyword token "define" Ht). auto. }
    split; [exact Hread|].
    intros L x rest HL. rewrite read_list_cons.
    destruct (String.eqb token ")").
    + intros [= <- <-]. auto.
    + pose proof (read_from_tokens_consumes (token :: rest0)) as Hlen.
      destruct (read_from_tokens (token :: rest0)) as [[x1 rest1]|e] eqn:E;
        [|discriminate].
      simpl in Hlen. destruct (Hread x1 rest1 eq_refl) as (Hx1 & Hk1 & Hm1).
      apply (proj2 (IH rest1 ltac:(lia) Hm1)).
      now apply define_free_snoc.
Qed.

(** X7. A program in which the token [define] does not occur leaves the
    dictionary as it found it, whatever it evaluates to and also when
    reading or evaluating it raises. *)
Theorem run_without_define (host : Host) program env :
  mentions "define" (tokenize program) = false ->
  snd (run host program env) = env.
Proof.
  intros Hm. unfold run, parse.
  destruct (read_from_tokens (tokenize program)) as [[x rest]|e] eqn:E;
    [|reflexivity].
  apply eval_define_free.
  apply (proj1 (read_define_free _ _ (le_n _) Hm) x rest E).
Qed.

Lemma run_without_define_witness :
  mentions "define" (tokenize "(if (< 1 2) (car x) 4)") = false
  /\ snd (run bare_host "(if (< 1 2) (car x) 4)" (standard_environment ∅))
     = standard_environment ∅.
Proof.
  split; [reflexivity|].
  apply (run_without_define bare_host "(if (< 1 2) (car x) 4)"
           (standard_environment ∅)).
  reflexivity.
Defined.

(** ** The list builtins *)

(** X15. The laws of pairs hold of the list builtins of the standard
    environment: when [a] evaluates to [v] and then [b] to a list [l], the
    [car] of [(cons a b)] is [v], its [cdr] is [l], its [length] is one
    more than that of [l], and it is not [null?]. *)
Theorem car_cdr_of_cons (host : Host) math_vars a b v env1 l env2 :
  let env := standard_environment math_vars in
  let pair := VList [VStr "cons"; a; b] in
  eval host a env = (Ok v, env1) ->
  eval host b env1 = (Ok (VList l), env2) ->
  eval host (VList [VStr "car"; pair]) env = (Ok v, env2)
  /\ eval host (VList [VStr "cdr"; pair]) env = (Ok (VList l), env2)
  /\ eval host (VList [VStr "length"; pair]) env
     = (Ok (VInt (Z.of_nat (S (length l)))), env2)
  /\ eval host (VList [VStr "null?"; pair]) env = (Ok (VBool false), env2).
Proof.
  intros env pair Ha Hb.
  assert (eval host pair env = (Ok (VList (v :: l)), env2)) as Hpair.
  { unfold pair. rewrite eval_call by reflexivity. rewrite eval_symbol.
    unfold env at 1.
    rewrite (standard_environment_builtin math_vars "cons"
               (VProc lambda_cons) eq_refl).
    cbn [eval_args]. fold env. rewrite Ha, Hb. reflexivity. }
  assert (forall name p,
            (list_to_map builtins : gmap string value) !! name
            = Some (VProc p) ->
            is_keyword (VStr name) "if" = false ->
            is_keyword (VStr name) "define" = false ->
            eval host (VList [VStr name; pair]) env
            = (Py.call host p [VList (v :: l)], env2)) as Hcall.
  { intros name p Hp Hi Hd. rewrite (eval_call host _ _ _ Hi Hd), eval_symbol.
    unfold env at 1.
    rewrite (standard_environment_builtin math_vars name _ Hp).
    cbn [eval_args]. fold env. rewrite Hpair. reflexivity. }
  rewrite (Hcall "car" lambda_car eq_refl eq_refl eq_refl),
    (Hcall "cdr" lambda_cdr eq_refl eq_refl eq_refl),
    (Hcall "length" builtin_len eq_refl eq_refl eq_refl),
    (Hcall "null?" lambda_is_null eq_refl eq_refl eq_refl).
  repeat split.
Qed.

Lemma car_cdr_of_cons_witness :
  eval bare_host (VList [VStr "car"; VList [VStr "cons"; VInt 1;
                                            VList [VStr "list"; VInt 2]]])
    (standard_environment ∅)
  = (Ok (VInt 1), standard_environment ∅).
Proof.
  refine (proj1 (car_cdr_of_cons bare_host ∅ (VInt 1)
                   (VList [VStr "list"; VInt 2]) (VInt 1)
                   (standard_environment ∅) [VInt 2]
                   (standard_environment ∅) eq_refl _)).
  rewrite eval_call by reflexivity. lookup_builtin. reflexivity.
Defined.

Lemma eval_args_snoc (host : Host) xs x :
  forall env vs env1 v env2,
    eval_args host xs env = (Ok vs, env1) ->
    eval host x env1 = (Ok v, env2) ->
    eval_args host (xs ++ [x]) env = (Ok (vs ++ [v]), env2).
Proof.
  induction xs as [|y xs IH]; intros env vs env1 v env2 Hxs Hx.
  - injection Hxs as <- <-. simpl. now rewrite Hx.
  - cbn [eval_args app] in *.
    destruct (eval host y env) as [[w|e] env'] eqn:Hy; [|discriminate].
    destruct (eval_args host xs env') as [[ws|e] env''] eqn:Hws;
      [|discriminate].
    injection Hxs as <- <-.
    now rewrite (IH env' ws env'' v env2 Hws Hx).
Qed.

(** X16. [begin] is sequencing: where it names the builtin, the
    expressions after it are evaluated in order, each in the dictionary the
    one before left, and the value of the last one is the value of the
    whole; with no expression at all the call raises [IndexError]. *)
Theorem begin_returns_last (host : Host) xs x env vs env1 v env2 :
  env !! "begin" = Some (VProc lambda_begin) ->
  eval_args host xs env = (Ok vs, env1) ->
  eval host x env1 = (Ok v, env2) ->
  eval host (VList (VStr "begin" :: xs ++ [x])) env = (Ok v, env2)
  /\ eval host (VList [VStr "begin"]) env = (Raise IndexError, env).
Proof.
  intros Hb Hxs Hx. split.
  - rewrite eval_call by reflexivity. rewrite eval_symbol, Hb.
    rewrite (eval_args_snoc host xs x env vs env1 v env2 Hxs Hx).
    cbn [apply Py.call]. unfold Py.begin. now rewrite last_snoc.
  - rewrite eval_call by reflexivity. rewrite eval_symbol, Hb. reflexivity.
Qed.

Lemma begin_returns_last_witness :
  eval bare_host
    (VList [VStr "begin"; VList [VStr "define"; VStr "x"; VInt 7]; VStr "x"])
    (standard_environment ∅)
  = (Ok (VInt 7), <["x" := VInt 7]> (standard_environment ∅)).
Proof.
  refine (proj1 (begin_returns_last bare_host
                   [VList [VStr "define"; VStr "x"; VInt 7]] (VStr "x")
                   (standard_environment ∅) [VNone]
                   (<["x" := VInt 7]> (standard_environment ∅)) (VInt 7)
                   (<["x" := VInt 7]> (standard_environment ∅)) _ eq_refl _)).
  - now apply standard_environment_builtin.
  - rewrite eval_symbol. now rewrite lookup_insert_eq.
Defined.

(** ** Equality *)

Lemma proc_eqb_refl p : Py.proc_eqb p p = true.
Proof. destruct p; try reflexivity. apply String.eqb_refl. Qed.

(** X17. [=] and [equal?] hold between an object and itself unless a NaN
    occurs in it: a number, a symbol, [None], a procedure and a list of
    such objects, nested to any depth, equal themselves, whether or not the
    host takes the two operands for one object. A NaN does not equal
    itself. *)
Theorem equal_reflexive (host : Host) v :
  (nan_free v = true ->
   Py.call host operator_eq [v; v] = Ok (VBool true))
  /\ (is_nan v = true ->
      Py.call host operator_eq [v; v] = Ok (VBool false)).
Proof.
  split.
  - intros Hv. cbn [Py.call]. do 2 f_equal.
    induction v as [z|f|b|s|l IH| |p] using value_ind'.
    + simpl. now rewrite Z.compare_refl.
    + simpl. rewrite SFcompare_refl; [reflexivity|].
      intros ->. discriminate Hv.
    + simpl. now rewrite Z.compare_refl.
    + apply String.eqb_refl.
    + cbn [Py.eq Py.as_number nan_free] in *.
      induction IH as [|x l Hx _ IHl]; [reflexivity|].
      cbn [forallb] in Hv. apply andb_true_iff in Hv as [Hvx Hvl].
      rewrite (Hx Hvx), orb_true_r. simpl. now apply IHl.
    + reflexivity.
    + apply proc_eqb_refl.
  - intros Hv. destruct v as [z|f|b|s|l| |p]; try discriminate Hv.
    destruct f; try discriminate Hv. reflexivity.
Qed.

Lemma equal_reflexive_witness :
  Py.call bare_host operator_eq
    [VList [VInt 1; VList [VStr "a"; VProc lambda_car]];
     VList [VInt 1; VList [VStr "a"; VProc lambda_car]]]
  = Ok (VBool true).
Proof.
  apply (proj1 (equal_reflexive bare_host
                  (VList [VInt 1; VList [VStr "a"; VProc lambda_car]]))).
  reflexivity.
Defined.

(** ** The standard environment *)

Lemma builtins_procedures key v :
  In (key, v) builtins -> exists p, v = VProc p.
Proof.
  unfold builtins. simpl.
  intros H. repeat (destruct H as [[= <- <-] | H]; [eauto|]). destruct H.
Qed.

(** X18. In the standard environment each name of the dictionary literal
    is bound to the procedure the literal gives it, whatever the [math]
    module binds the name to, and every other name is bound as in the
    [math] module. *)
Theorem standard_environment_names math_vars key :
  (In key (map fst builtins) ->
   exists p, In (key, VProc p) builtins
             /\ standard_environment math_vars !! key = Some (VProc p))
  /\ (~ In key (map fst builtins) ->
      standard_environment math_vars !! key = math_vars !! key).
Proof.
  split.
  - intros Hin. apply in_map_iff in Hin as ([k v] & Hk & Hin).
    simpl in Hk. subst k.
    destruct (builtins_procedures key v Hin) as [p ->].
    assert (NoDup (builtins.*1)) as Hnd by (vm_compute; repeat constructor;
      rewrite list_elem_of_In; simpl; intuition discriminate).
    exists p. split; [exact Hin|].
    apply standard_environment_builtin.
    apply elem_of_list_to_map_1; [exact Hnd|].
    now apply list_elem_of_In.
  - intros Hnot. unfold standard_environment.
    apply lookup_union_r. apply not_elem_of_list_to_map_1.
    intros Hin. apply Hnot. apply list_elem_of_In in Hin. exact Hin.
Qed.

Lemma standard_environment_names_witness :
  exists p,
    In ("append"%string, VProc p) builtins
    /\ standard_environment {["append"%string := VInt 0]} !! "append"
       = Some (VProc p).
Proof.
  apply (proj1 (standard_environment_names {["append"%string := VInt 0]}
                  "append")).
  simpl. tauto.
Defined.

(** ** The printer *)

(** X19. Printing separates simple trees: two simple trees that
    [schemestr] prints as the same text are the same tree, also when the
    two were printed under different hosts. *)
Theorem schemestr_injective (host host' : Host) t u :
  simple_tree t = true -> simple_tree u = true ->
  schemestr host t = schemestr host' u -> t = u.
Proof.
  intros Ht Hu Heq.
  pose proof (parse_schemestr_tree host t Ht) as Pt.
  pose proof (parse_schemestr_tree host' u Hu) as Pu.
  rewrite Heq, Pu in Pt. now injection Pt.
Qed.

Lemma schemestr_injective_witness :
  VList [VStr "a"; VInt 1] = VList [VStr "a"; VInt 1].
Proof.
  apply (schemestr_injective bare_host bare_host
           (VList [VStr "a"; VInt 1]) (VList [VStr "a"; VInt 1]));
    reflexivity.
Defined.

(** ** The read-eval-print loop *)








